(** * ksen: verification of the query-log HTTP service (server.js)

    A shallow embedding of [src/server.js]: the Express application with
    its CORS callback, its rate-limiter configuration, the zod schema of
    the submission body, the two [/api/queries] handlers, the health
    handler and the port-probing [startServer].

    JavaScript strings are sequences of code units; here a [string] is a
    sequence of code units below 256.  JavaScript numbers are doubles: a
    finite one is kept as the rational it stands for, and every operation
    that produces a number rounds to the nearest double, ties to even. *)

From Stdlib Require Import ZArith QArith Ascii String List Lia.
From stdpp Require Import base list strings gmap sorting.

Open Scope Z_scope.
Set Warnings "-register-all".

(** ** JavaScript values used by the server *)

Module JS.

(** A JavaScript number: NaN, the two infinities, or a finite value. *)
Inductive number : Type :=
| NaN
| PosInf
| NegInf
| Fin (q : Q).

(** [x < y] on numbers; false as soon as one side is NaN. *)
Definition lt (x y : number) : bool :=
  match x, y with
  | NaN, _ | _, NaN => false
  | PosInf, _ => false
  | _, NegInf => false
  | NegInf, _ => true
  | Fin _, PosInf => true
  | Fin a, Fin b => negb (Qle_bool b a)
  end.

(** [Math.min(a, b)] and [Math.max(a, b)]. *)
Definition math_min (a b : number) : number :=
  match a, b with
  | NaN, _ | _, NaN => NaN
  | _, _ => if lt b a then b else a
  end.

Definition math_max (a b : number) : number :=
  match a, b with
  | NaN, _ | _, NaN => NaN
  | _, _ => if lt a b then b else a
  end.

(** ToBoolean on numbers: NaN and zero are falsy. *)
Definition truthy_number (x : number) : bool :=
  match x with
  | NaN => false
  | Fin q => negb (Qnum q =? 0)
  | _ => true
  end.

(** [x || d] where both sides are numbers. *)
Definition or_number (x d : number) : number :=
  if truthy_number x then x else d.

Definition negate (x : number) : number :=
  match x with
  | NaN => NaN
  | PosInf => NegInf
  | NegInf => PosInf
  | Fin q => Fin (Qopp q)
  end.

(** *** Rounding to a double *)

(** [a / b] rounded to the nearest integer, ties to even ([b] positive). *)
Definition round_half_even (a b : Z) : Z :=
  let k := a / b in
  match 2 * (a mod b) ?= b with
  | Lt => k
  | Gt => k + 1
  | Eq => if Z.even k then k else k + 1
  end.

(** The double nearest to [n / d], both positive: a significand [m] of
    at most 53 bits and an exponent [e] of at least -1074, the value being
    [m * 2^e]; what rounds to [2^1024] or more is infinite. *)
Definition nearest_double (n d : Z) : number :=
  let lg0 := Z.log2 n - Z.log2 d in
  let lg :=
    if n * 2 ^ Z.max 0 (- lg0) <? d * 2 ^ Z.max 0 lg0 then lg0 - 1 else lg0 in
  let e := Z.max (-1074) (lg - 52) in
  let m := round_half_even (n * 2 ^ Z.max 0 (- e)) (d * 2 ^ Z.max 0 e) in
  if 0 <=? e then
    if 2 ^ 1024 <=? m * 2 ^ e then PosInf else Fin (Qmake (m * 2 ^ e) 1)
  else Fin (Qred (Qmake m (Z.to_pos (2 ^ (- e))))).

(** The Number value for a real: the nearest double, in lowest terms. *)
Definition to_double (q : Q) : number :=
  match Qnum q with
  | 0 => Fin 0
  | Zpos n => nearest_double (Zpos n) (Zpos (Qden q))
  | Zneg n => negate (nearest_double (Zpos n) (Zpos (Qden q)))
  end.

(** [x + 1] on numbers. *)
Definition succ_number (x : number) : number :=
  match x with
  | Fin q => to_double (Qplus q 1)
  | other => other
  end.

(** ToBoolean on strings: only the empty string is falsy. *)
Definition truthy_string (s : string) : bool :=
  match s with
  | EmptyString => false
  | String _ _ => true
  end.

(** *** ToNumber applied to a string (StringNumericLiteral) *)

Definition code (c : ascii) : Z := Z.of_N (N_of_ascii c).

(** White space and line terminators among the code units below 256. *)
Definition is_space (c : ascii) : bool :=
  let n := code c in
  ((9 <=? n) && (n <=? 13)) || (n =? 32) || (n =? 160).

(** Value of a digit in the given radix, when the code unit is one. *)
Definition digit_of (radix : Z) (c : ascii) : option Z :=
  let n := code c in
  let v :=
    if (48 <=? n) && (n <=? 57) then Some (n - 48)
    else if (97 <=? n) && (n <=? 102) then Some (n - 87)
    else if (65 <=? n) && (n <=? 70) then Some (n - 55)
    else None in
  match v with
  | Some d => if d <? radix then Some d else None
  | None => None
  end.

(** The longest prefix of digits, and what follows it. *)
Fixpoint take_digits (radix : Z) (l : list ascii) : list Z * list ascii :=
  match l with
  | c :: r =>
      match digit_of radix c with
      | Some d => let '(ds, rest) := take_digits radix r in (d :: ds, rest)
      | None => ([], l)
      end
  | [] => ([], [])
  end.

(** The mathematical value of a digit sequence. *)
Definition digits_value (radix : Z) (ds : list Z) : Z :=
  fold_left (fun acc d => acc * radix + d) ds 0.

(** The real [m * 10^e]. *)
Definition scale10 (m e : Z) : Q :=
  if 0 <=? e then Qmake (m * 10 ^ e) 1
  else Qmake m (Z.to_pos (10 ^ (- e))).

Definition drop_space : list ascii -> list ascii :=
  fix go l :=
    match l with
    | c :: r => if is_space c then go r else l
    | [] => []
    end.

(** [trim]: strip white space at both ends. *)
Definition trim_list (l : list ascii) : list ascii :=
  rev (drop_space (rev (drop_space l))).

Definition trim (s : string) : string :=
  string_of_list_ascii (trim_list (list_ascii_of_string s)).

(** ExponentPart, optional: [e] or [E], an optional sign, digits;
    nothing may follow. *)
Definition parse_exponent (l : list ascii) : option Z :=
  match l with
  | [] => Some 0
  | c :: r =>
      if (code c =? 101) || (code c =? 69) then
        let '(neg, r') :=
          match r with
          | s :: r1 =>
              if code s =? 45 then (true, r1)
              else if code s =? 43 then (false, r1)
              else (false, r)
          | [] => (false, r)
          end in
        match take_digits 10 r' with
        | ((_ :: _) as ds, []) =>
            let e := digits_value 10 ds in
            Some (if neg : bool then - e else e)
        | _ => None
        end
      else None
  end.

(** StrUnsignedDecimalLiteral. *)
Definition parse_unsigned_decimal (l : list ascii) : number :=
  if decide (l = list_ascii_of_string "Infinity") then PosInf
  else
    let '(ip, r1) := take_digits 10 l in
    let '(fp, r2) :=
      match r1 with
      | c :: r => if code c =? 46 then take_digits 10 r else ([], r1)
      | [] => ([], r1)
      end in
    match ip ++ fp with
    | [] => NaN
    | ds =>
        match parse_exponent r2 with
        | Some e =>
            to_double (scale10 (digits_value 10 ds) (e - Z.of_nat (length fp)))
        | None => NaN
        end
    end.

(** NonDecimalIntegerLiteral: [0x], [0o], [0b] and their capitals. *)
Definition parse_prefixed (l : list ascii) : option number :=
  match l with
  | z :: p :: r =>
      if code z =? 48 then
        let radix :=
          if (code p =? 120) || (code p =? 88) then Some 16
          else if (code p =? 111) || (code p =? 79) then Some 8
          else if (code p =? 98) || (code p =? 66) then Some 2
          else None in
        match radix with
        | Some b =>
            match take_digits b r with
            | ((_ :: _) as ds, []) => Some (to_double (Qmake (digits_value b ds) 1))
            | _ => Some NaN
            end
        | None => None
        end
      else None
  | _ => None
  end.

(** [Number(s)] for a string [s]. *)
Definition string_to_number (s : string) : number :=
  match trim_list (list_ascii_of_string s) with
  | [] => Fin 0
  | (c :: r) as l =>
      match parse_prefixed l with
      | Some n => n
      | None =>
          if code c =? 45 then negate (parse_unsigned_decimal r)
          else if code c =? 43 then parse_unsigned_decimal r
          else parse_unsigned_decimal l
      end
  end.

End JS.

(** ** Values exchanged with the HTTP framework *)

Module Express.

(** A value of [req.query]: a string, an array or an object, as the
    query-string parser builds them. *)
Inductive qval : Type :=
| QStr (s : string)
| QArr (items : list qval)
| QObj (fields : list (string * qval)).

(** [k in fields] for the own keys of a query object. *)
Fixpoint own_key (k : string) (fields : list (string * qval)) : bool :=
  match fields with
  | [] => false
  | (k', _) :: rest => if String.eqb k k' then true else own_key k rest
  end.

(** The strings of a list of conversions, when none of them threw. *)
Fixpoint all_strings (l : list (option string)) : option (list string) :=
  match l with
  | [] => Some []
  | Some s :: rest =>
      match all_strings rest with
      | Some ss => Some (s :: ss)
      | None => None
      end
  | None :: _ => None
  end.

(** The conversion of a query value to a primitive, which [Number] and
    [Array.prototype.join] both start with; [None] when it throws a
    TypeError.  Arrays join their elements with a comma.  A plain object
    prints as [[object Object]] through [Object.prototype.toString]; with
    an own [toString] key, whose value the parser never makes a function,
    neither [toString] nor [valueOf] yields a primitive, and the
    conversion throws. *)
Fixpoint qval_to_string (v : qval) : option string :=
  match v with
  | QStr s => Some s
  | QArr items =>
      match all_strings (map qval_to_string items) with
      | Some ss => Some (String.concat "," ss)
      | None => None
      end
  | QObj fields =>
      if own_key "toString" fields then None else Some "[object Object]"
  end.

(** [Number(x)] for [x] a possibly undefined query value; [None] when it
    throws. *)
Definition to_number (x : option qval) : option JS.number :=
  match x with
  | None => Some JS.NaN
  | Some v =>
      match qval_to_string v with
      | Some s => Some (JS.string_to_number s)
      | None => None
      end
  end.

(** A JavaScript value: request bodies as [express.json()] leaves them in
    [req.body], rows as the database driver returns them, response bodies
    as handed to [res.json]. *)
Inductive value : Type :=
| VUndefined
| VNull
| VBool (b : bool)
| VNum (n : JS.number)
| VStr (s : string)
| VDate (t : Z)
| VArr (items : list value)
| VObj (fields : list (string * value)).

(** [k in obj] and [obj[k]] on the fields of an object. *)
Fixpoint has_key (k : string) (fields : list (string * value)) : bool :=
  match fields with
  | [] => false
  | (k', _) :: rest => if String.eqb k k' then true else has_key k rest
  end.

Fixpoint prop (k : string) (fields : list (string * value)) : value :=
  match fields with
  | [] => VUndefined
  | (k', v) :: rest => if String.eqb k k' then v else prop k rest
  end.

(** [v.k] for any value; reading a property of a non-object gives
    [undefined] here (the handlers only read from objects). *)
Definition get (k : string) (v : value) : value :=
  match v with
  | VObj fields => prop k fields
  | _ => VUndefined
  end.

(** A JSON text by its structure: what [JSON.stringify] writes and a
    [jsonb] column keeps.  A number stands for the numeral JavaScript
    prints for that double, a time for its ISO 8601 string. *)
Inductive json_text : Type :=
| JNull
| JBool (b : bool)
| JNum (q : Q)
| JStr (s : string)
| JTime (t : Z)
| JArr (items : list json_text)
| JObj (members : list (string * json_text)).

(** [JSON.stringify(v)]; [None] is [undefined], its result for
    [undefined].  A number that is not finite is written [null]; in an
    array [undefined] is written [null]; in an object a member whose value
    is [undefined] is left out. *)
Fixpoint stringify (v : value) : option json_text :=
  match v with
  | VUndefined => None
  | VNull => Some JNull
  | VBool b => Some (JBool b)
  | VNum (JS.Fin q) => Some (JNum q)
  | VNum _ => Some JNull
  | VStr s => Some (JStr s)
  | VDate t => Some (JTime t)
  | VArr items =>
      Some (JArr (map (fun x => match stringify x with
                                | Some j => j
                                | None => JNull
                                end) items))
  | VObj fields =>
      Some (JObj (flat_map (fun kv => match stringify (snd kv) with
                                      | Some j => [(fst kv, j)]
                                      | None => []
                                      end) fields))
  end.

Inductive method : Type := GET | HEAD | POST | PUT | PATCH | DELETE | OPTIONS.

(** The error [express.json()] raises on a body it refuses: it carries
    the status to answer with (400 for malformed JSON, 413 for a body over
    the size limit, 415 for an encoding it does not support) and its
    type. *)
Record body_error : Type := {
  error_status : Z;
  error_type : string
}.

(** What the handlers and middleware read from a request.  [req_body] is
    what [express.json()] left in [req.body], and [req_body_error] the
    error it raised instead, if it refused the body (malformed JSON, a
    body over the size limit, an unsupported encoding).  [req_ips] and
    [req_ip] are Express's [req.ips] and [req.ip] under
    [app.set('trust proxy', 1)]. *)
Record request : Type := {
  req_method : method;
  req_path : string;
  req_origin : option string;
  req_query_limit : option qval;
  req_body : value;
  req_body_error : option body_error;
  req_ips : list string;
  req_ip : option string
}.

End Express.

(** ** The zod schema of the submission body *)

Module Zod.
Import Express.

(** zod's classification of an input value. *)
Inductive parsed_type : Type :=
| TUndefined | TNull | TBoolean | TNumber | TNan | TString | TDate
| TArray | TObject.

Definition getParsedType (v : value) : parsed_type :=
  match v with
  | VUndefined => TUndefined
  | VNull => TNull
  | VBool _ => TBoolean
  | VNum JS.NaN => TNan
  | VNum _ => TNumber
  | VStr _ => TString
  | VDate _ => TDate
  | VArr _ => TArray
  | VObj _ => TObject
  end.

(** The reason of an issue.  zod derives the message from it: an
    [invalid_type] that received [undefined] reads "Required". *)
Inductive issue_code : Type :=
| invalid_type (expected received : parsed_type)
| too_small (minimum : Z)
| too_big (maximum : Z).

Record issue : Type := {
  issue_path : list string;
  issue_why : issue_code
}.

Inductive string_check : Type :=
| min (n : Z)
| max (n : Z).

(** The schema combinators [server.js] uses. *)
Inductive schema : Type :=
| z_string (checks : list string_check)
| z_any
| z_record (values : schema)
| z_optional (inner : schema)
| z_object (shape : list (string * schema)).

Definition run_check (path : list string) (s : string) (c : string_check)
  : list issue :=
  let len := Z.of_nat (String.length s) in
  match c with
  | min n => if len <? n then [{| issue_path := path; issue_why := too_small n |}] else []
  | max n => if n <? len then [{| issue_path := path; issue_why := too_big n |}] else []
  end.

Definition wrong_type (path : list string) (expected : parsed_type) (v : value)
  : list issue :=
  [{| issue_path := path;
      issue_why := invalid_type expected (getParsedType v) |}].

(** The keys an object result keeps: never [__proto__], and a key whose
    parsed value is [undefined] only when the input had it. *)
Definition kept (k : string) (always_set : bool) (v : value) : bool :=
  negb (String.eqb k "__proto__")
  && (match v with VUndefined => always_set | _ => true end).

(** [schema._parse]: the issues raised and the parsed data (meaningful
    when no issue was raised). *)
Fixpoint parse (s : schema) (path : list string) (v : value) {struct s}
  : list issue * value :=
  match s with
  | z_any => ([], v)
  | z_string checks =>
      match v with
      | VStr str => (flat_map (run_check path str) checks, v)
      | _ => (wrong_type path TString v, v)
      end
  | z_optional inner =>
      match v with
      | VUndefined => ([], VUndefined)
      | _ => parse inner path v
      end
  | z_record values =>
      match v with
      | VObj fields =>
          let results :=
            map (fun kv => (fst kv, parse values (path ++ [fst kv]) (snd kv)))
                fields in
          (flat_map (fun r => fst (snd r)) results,
           VObj (map (fun r => (fst r, snd (snd r)))
                     (List.filter (fun r => kept (fst r) true (snd (snd r)))
                                  results)))
      | _ => (wrong_type path TObject v, v)
      end
  | z_object shape =>
      match v with
      | VObj fields =>
          let results :=
            (fix each (sh : list (string * schema)) :=
               match sh with
               | [] => []
               | (k, sk) :: rest =>
                   (k, has_key k fields, parse sk (path ++ [k]) (prop k fields))
                   :: each rest
               end) shape in
          (flat_map (fun r => fst (snd r)) results,
           VObj (map (fun r => (fst (fst r), snd (snd r)))
                     (List.filter
                        (fun r => kept (fst (fst r)) (snd (fst r)) (snd (snd r)))
                        results)))
      | _ => (wrong_type path TObject v, v)
      end
  end.

(** [schema.safeParse(v)]: the data, or the issues. *)
Definition safeParse (s : schema) (v : value) : value + list issue :=
  match parse s [] v with
  | ([], data) => inl data
  | (issues, _) => inr issues
  end.

(** [error.flatten()]: issues without a path, and issues by first path
    component.  Each entry stands for the issue's message. *)
Record flattened : Type := {
  formErrors : list issue_code;
  fieldErrors : list (string * list issue_code)
}.

Fixpoint push_field (k : string) (why : issue_code)
    (fe : list (string * list issue_code)) : list (string * list issue_code) :=
  match fe with
  | [] => [(k, [why])]
  | (k', ws) :: rest =>
      if String.eqb k k' then (k', ws ++ [why]) :: rest
      else (k', ws) :: push_field k why rest
  end.

Definition flatten (issues : list issue) : flattened :=
  fold_left
    (fun acc sub =>
       match issue_path sub with
       | k :: _ =>
           {| formErrors := formErrors acc;
              fieldErrors := push_field k (issue_why sub) (fieldErrors acc) |}
       | [] =>
           {| formErrors := formErrors acc ++ [issue_why sub];
              fieldErrors := fieldErrors acc |}
       end)
    issues {| formErrors := []; fieldErrors := [] |}.

End Zod.

(** ** The query_logs table behind the connection pool *)

Module Pg.
Import Express.

(** Modelled from the spec: the [query_logs] table, whose definition is
    not part of [server.js].  Columns [id] (unique, assigned by the
    store in increasing order), [text], [ip] (address typed, nullable),
    [meta] (JSON document, nullable) and [created_at] (assigned by the
    store at insert time). *)
Record row : Type := {
  row_id : Z;
  row_text : string;
  row_ip : option string;
  row_meta : option json_text;
  row_created_at : Z
}.

(** The two statements [server.js] sends, with their parameters.  The
    [meta] parameter is the text [JSON.stringify] produced, which the
    [jsonb] cast reads; [None] is SQL's [NULL], sent for [undefined]. *)
Inductive statement : Type :=
| insert_query_log (text : string) (ip : option string)
    (meta : option json_text)
| select_recent (limit : JS.number).

(** An exception raised by [pool.query] or inside a handler. *)
Inductive error : Type :=
| db_error (message : string)
| type_error (message : string).

(** The store: the table, the next identifier, the store's clock, and
    the statements the server currently refuses (lost connection, a
    parameter it cannot cast, a missing table); a refusal carries the
    driver's error. *)
Record db : Type := {
  table : list row;
  next_id : Z;
  clock : Z;
  refuses : statement -> option error
}.

(** [ORDER BY created_at DESC]. *)
Definition newer_first (a b : row) : Prop := row_created_at b <= row_created_at a.

#[global] Instance newer_first_dec : RelDecision newer_first.
Proof. intros a b. unfold newer_first. apply Z.le_dec. Defined.

(** The columns of [SELECT id, text, ip, created_at]. *)
Definition listed (r : row) : value :=
  VObj [("id", VNum (JS.Fin (inject_Z (row_id r))));
        ("text", VStr (row_text r));
        ("ip", match row_ip r with Some a => VStr a | None => VNull end);
        ("created_at", VDate (row_created_at r))].

(** The columns of [RETURNING id, created_at]. *)
Definition returned (r : row) : value :=
  VObj [("id", VNum (JS.Fin (inject_Z (row_id r))));
        ("created_at", VDate (row_created_at r))].

(** A [LIMIT] parameter is read as a non-negative integer. *)
Definition row_count (n : JS.number) : option nat :=
  match n with
  | JS.Fin q =>
      let r := Qred q in
      if (Zpos (Qden r) =? 1) && (0 <=? Qnum r) then Some (Z.to_nat (Qnum r))
      else None
  | _ => None
  end.

(** [pool.query(statement)]: the rows of the result or the exception,
    and the store afterwards. *)
Definition query (d : db) (s : statement) : (list value + error) * db :=
  match refuses d s with
  | Some e => (inr e, d)
  | None =>
      match s with
      | insert_query_log text ip meta =>
          let r := {| row_id := next_id d; row_text := text; row_ip := ip;
                      row_meta := meta; row_created_at := clock d |} in
          (inl [returned r],
           {| table := table d ++ [r]; next_id := next_id d + 1;
              clock := clock d; refuses := refuses d |})
      | select_recent limit =>
          match row_count limit with
          | Some n => (inl (map listed (take n (merge_sort newer_first (table d)))), d)
          | None => (inr (db_error "invalid input syntax for type bigint"), d)
          end
      end
  end.

End Pg.

(** ** CORS *)

Module Cors.
Import Express.

(** [s.split(',')]. *)
Fixpoint split_commas (s : string) : list string :=
  match s with
  | EmptyString => [EmptyString]
  | String c r =>
      if JS.code c =? 44 then EmptyString :: split_commas r
      else match split_commas r with
           | h :: t => String c h :: t
           | [] => [String c EmptyString]
           end
  end.

(** [const origins = (process.env.CORS_ORIGIN || '').split(',')
      .map((s) => s.trim()).filter(Boolean)]. *)
Definition origins_of (cors_origin : option string) : list string :=
  List.filter JS.truthy_string
    (map JS.trim
       (split_commas (match cors_origin with
                      | Some s => if JS.truthy_string s then s else ""
                      | None => ""
                      end))).

(** [!origin] for the possibly undefined header value. *)
Definition falsy_origin (origin : option string) : bool :=
  match origin with
  | None => true
  | Some s => negb (JS.truthy_string s)
  end.

(** [origins.includes(origin)]. *)
Definition includes (origins : list string) (origin : option string) : bool :=
  match origin with
  | None => false
  | Some s => existsb (String.eqb s) origins
  end.

(** The [origin] option: the arguments the callback passes to [cb]. *)
Definition origin_callback (origins : list string) (origin : option string)
  : option Pg.error * bool :=
  if falsy_origin origin || (Z.of_nat (length origins) =? 0)
     || includes origins origin
  then (None, true)
  else (None, false).

Record options : Type := {
  origin : option string -> option Pg.error * bool;
  credentials : bool
}.

(** The options [server.js] passes to [cors]. *)
Definition server_options (origins : list string) : options :=
  {| origin := origin_callback origins; credentials := true |}.

(** Modelled from the spec: the middleware of the [cors] package, which
    is not part of [server.js], as far as the callback's answer goes.  On
    an error or a refusal it hands the request on without granting any
    CORS header; otherwise the request is permitted: the request's origin
    (when there is one) is the allowed origin and, when [credentials] is
    set, credentials are allowed. *)
Inductive grant : Type :=
| no_headers (err : option Pg.error)
| allowed (allow_origin : option string) (allow_credentials : bool).

Definition middleware (o : options) (req : request) : grant :=
  match origin o (req_origin req) with
  | (Some e, _) => no_headers (Some e)
  | (None, false) => no_headers None
  | (None, true) =>
      allowed (if falsy_origin (req_origin req) then None else req_origin req)
              (credentials o)
  end.

End Cors.

(** ** Rate limiting *)

Module RateLimit.
Import Express.

Record options : Type := {
  windowMs : Z;
  max : Z;
  standardHeaders : bool;
  legacyHeaders : bool;
  keyGenerator : request -> option string
}.

(** The options [server.js] passes to [rateLimit]. *)
Definition server_options : options :=
  {| windowMs := 60000; max := 60; standardHeaders := true;
     legacyHeaders := false; keyGenerator := req_ip |}.

(** Modelled from the spec: the limiter of the rate-limit package, which
    is not part of [server.js].  A fixed window counts the requests of
    each key; the count starts again when the window has run out; a
    request beyond [max] in its window is rejected.  The counters are
    local to the process. *)
Record client : Type := {
  totalHits : Z;
  resetTime : Z
}.

Abbreviation store := (gmap (option string) client).

Definition increment (o : options) (now : Z) (key : option string) (st : store)
  : client * store :=
  let fresh := {| totalHits := 0; resetTime := now + windowMs o |} in
  let current :=
    match st !! key with
    | Some c => if resetTime c <=? now then fresh else c
    | None => fresh
    end in
  let c := {| totalHits := totalHits current + 1;
              resetTime := resetTime current |} in
  (c, <[key := c]> st).

(** Modelled from the spec: the headers of a response that went through
    the limiter; the standard ones describe the quota, what is left of it
    and the time to the reset, the legacy ones are the [X-] forms. *)
Definition quota_headers (o : options) (now : Z) (c : client)
  : list (string * Z) :=
  let remaining := Z.max 0 (max o - totalHits c) in
  (if standardHeaders o
   then [("RateLimit-Limit", max o);
         ("RateLimit-Remaining", remaining);
         ("RateLimit-Reset", (resetTime c - now + 999) / 1000)]
   else [])
  ++
  (if legacyHeaders o
   then [("X-RateLimit-Limit", max o);
         ("X-RateLimit-Remaining", remaining);
         ("X-RateLimit-Reset", (resetTime c + 999) / 1000)]
   else []).

Record report : Type := {
  rejected : bool;
  quota : list (string * Z)
}.

(** Modelled from the spec: a request is counted under its key, and
    rejected when the count of its window exceeds [max]. *)
Definition middleware (o : options) (now : Z) (req : request) (st : store)
  : report * store :=
  let '(c, st') := increment o now (keyGenerator o req) st in
  ({| rejected := max o <? totalHits c; quota := quota_headers o now c |}, st').

End RateLimit.

(** ** The application *)

Module Server.
Import Express.

(** The argument of [app.listen]: [process.env.PORT] is a string, the
    default and every retry are numbers. *)
Inductive port : Type :=
| port_number (n : JS.number)
| port_string (s : string).

(** What a run leaves behind besides the response: statements sent to
    the pool, console output, bind attempts, and an explicit end of the
    process. *)
Inductive effect : Type :=
| ran_query (s : Pg.statement)
| console_error (e : Pg.error)
| console_log_listening (p : port)
| console_warn_port_busy (p : port)
| console_error_server (code : string)
| listen (p : port)
| uncaught_exception (code : string)
| process_exit (status : Z).

(** What a response carries.  [refused_body] and [framework_error] are
    the framework's own error page; [unanswered e] stands for no response
    at all: the exception [e] left the handler before it sent anything,
    and what follows is up to the framework and the runtime. *)
Inductive body : Type :=
| json (v : value)
| invalid_payload (details : Zod.flattened)
| too_many_requests
| framework_error (e : Pg.error)
| refused_body (e : body_error)
| unanswered (e : Pg.error)
| empty.

(** The status is 0 where none was set. *)
Record response : Type := {
  status : Z;
  content : body
}.

Record outcome : Type := {
  reply : response;
  pool_after : Pg.db;
  effects : list effect
}.

(** [const QuerySchema = z.object({ text: z.string().min(1).max(2000),
      meta: z.record(z.any()).optional() })]. *)
Definition QuerySchema : Zod.schema :=
  Zod.z_object
    [("text", Zod.z_string [Zod.min 1; Zod.max 2000]);
     ("meta", Zod.z_optional (Zod.z_record Zod.z_any))].

(** ToBoolean on values. *)
Definition truthy (v : value) : bool :=
  match v with
  | VUndefined | VNull => false
  | VBool b => b
  | VNum n => JS.truthy_number n
  | VStr s => JS.truthy_string s
  | VDate _ | VArr _ | VObj _ => true
  end.

(** [(req.ips && req.ips.length ? req.ips[0] : req.ip) || null];
    [None] is [null]. *)
Definition client_address (req : request) : option string :=
  let first :=
    match req_ips req with
    | a :: _ => Some a
    | [] => req_ip req
    end in
  match first with
  | Some a => if JS.truthy_string a then Some a else None
  | None => None
  end.

(** The string bound to [text]; it is a string once [QuerySchema] has
    accepted the body. *)
Definition text_of (v : value) : string :=
  match v with
  | VStr s => s
  | _ => EmptyString
  end.

Definition respond (code : Z) (fields : list (string * value)) : response :=
  {| status := code; content := json (VObj fields) |}.

(** [app.post('/api/queries', ...)]. *)
Definition post_queries (req : request) (pool : Pg.db) : outcome :=
  match Zod.safeParse QuerySchema (req_body req) with
  | inr issues =>
      {| reply := {| status := 400;
                     content := invalid_payload (Zod.flatten issues) |};
         pool_after := pool;
         effects := [] |}
  | inl data =>
      let text := get "text" data in
      let meta := get "meta" data in
      let ip := client_address req in
      let stmt :=
        Pg.insert_query_log (text_of text) ip
          (stringify (if truthy meta then meta else VObj [])) in
      match Pg.query pool stmt with
      | (inl (first :: _), pool') =>
          {| reply := respond 201 [("ok", VBool true);
                                   ("id", get "id" first);
                                   ("createdAt", get "created_at" first)];
             pool_after := pool';
             effects := [ran_query stmt] |}
      | (inl [], pool') =>
          let e := Pg.type_error "Cannot read properties of undefined" in
          {| reply := respond 500 [("error", VStr "DB insert failed")];
             pool_after := pool';
             effects := [ran_query stmt; console_error e] |}
      | (inr e, pool') =>
          {| reply := respond 500 [("error", VStr "DB insert failed")];
             pool_after := pool';
             effects := [ran_query stmt; console_error e] |}
      end
  end.

(** [Math.max(1, Math.min(100, n || 20))]. *)
Definition clamped (n : JS.number) : JS.number :=
  JS.math_max (JS.Fin 1)
    (JS.math_min (JS.Fin 100) (JS.or_number n (JS.Fin 20))).

(** [Math.max(1, Math.min(100, Number(req.query.limit) || 20))]; [None]
    when [Number] throws. *)
Definition effective_limit (req : request) : option JS.number :=
  match to_number (req_query_limit req) with
  | Some n => Some (clamped n)
  | None => None
  end.

(** [app.get('/api/queries', ...)].  The limit is computed before the
    [try] block: what [Number] throws leaves the handler. *)
Definition get_queries (req : request) (pool : Pg.db) : outcome :=
  match effective_limit req with
  | None =>
      let e := Pg.type_error "Cannot convert object to primitive value" in
      {| reply := {| status := 0; content := unanswered e |};
         pool_after := pool;
         effects := [] |}
  | Some limit =>
      let stmt := Pg.select_recent limit in
      match Pg.query pool stmt with
      | (inl rows, pool') =>
          {| reply := respond 200 [("ok", VBool true); ("items", VArr rows)];
             pool_after := pool';
             effects := [ran_query stmt] |}
      | (inr e, pool') =>
          {| reply := respond 500 [("error", VStr "DB select failed")];
             pool_after := pool';
             effects := [ran_query stmt; console_error e] |}
      end
  end.

(** [app.get('/api/health', ...)]. *)
Definition get_health (_req : request) (pool : Pg.db) : outcome :=
  {| reply := respond 200 [("ok", VBool true)];
     pool_after := pool;
     effects := [] |}.

(** *** Routing *)

Definition lower_char (c : ascii) : ascii :=
  let n := JS.code c in
  if (65 <=? n) && (n <=? 90) then ascii_of_N (Z.to_N (n + 32)) else c.

Fixpoint lower (s : string) : string :=
  match s with
  | EmptyString => EmptyString
  | String c r => String (lower_char c) (lower r)
  end.

(** A route path matches whatever the letter case and with or without
    one closing slash (Express's defaults). *)
Definition routed (pattern path : string) : bool :=
  let p := lower path in
  String.eqb p pattern || String.eqb p (pattern ++ "/").

(** [app.use(mount, ...)]: the mount path, with or without a closing
    slash, matches itself and every path that continues it after a
    slash, whatever the letter case. *)
Definition without_closing_slash (s : string) : string :=
  match rev (list_ascii_of_string s) with
  | c :: r => if JS.code c =? 47 then string_of_list_ascii (rev r) else s
  | [] => s
  end.

Definition mounted (mount path : string) : bool :=
  let base := without_closing_slash mount in
  let p := lower path in
  String.eqb p base || String.prefix (base ++ "/") p.

(** [app.get] also serves HEAD requests. *)
Definition is_get (m : method) : bool :=
  match m with
  | GET | HEAD => true
  | _ => false
  end.

Definition is_post (m : method) : bool :=
  match m with
  | POST => true
  | _ => false
  end.

Definition is_options (m : method) : bool :=
  match m with
  | OPTIONS => true
  | _ => false
  end.

(** The three API routes, in the order [server.js] registers them; [None]
    leaves the request to the static files, the index document and the
    framework's own replies. *)
Definition route (req : request) : option (request -> Pg.db -> outcome) :=
  if is_post (req_method req) && routed "/api/queries" (req_path req)
  then Some post_queries
  else if is_get (req_method req) && routed "/api/queries" (req_path req)
  then Some get_queries
  else if is_get (req_method req) && routed "/api/health" (req_path req)
  then Some get_health
  else None.

Record server : Type := {
  pool : Pg.db;
  limiter : gmap (option string) RateLimit.client
}.

Record result : Type := {
  cors : Cors.grant;
  rate : option RateLimit.report;
  answer : option response;
  log : list effect;
  after : server
}.

Definition dispatch (req : request) (p : Pg.db)
  : option response * list effect * Pg.db :=
  match route req with
  | Some handler =>
      let o := handler req p in (Some (reply o), effects o, pool_after o)
  | None => (None, [], p)
  end.

(** [app.use('/api/', rateLimit({...}))] and the routes after it. *)
Definition behind_cors (g : Cors.grant) (now : Z) (req : request) (s : server)
  : result :=
  if mounted "/api/" (req_path req)
  then
    let '(r, lim) :=
      RateLimit.middleware RateLimit.server_options now req (limiter s) in
    if RateLimit.rejected r
    then {| cors := g; rate := Some r;
            answer := Some {| status := 429; content := too_many_requests |};
            log := [];
            after := {| pool := pool s; limiter := lim |} |}
    else
      let '(a, fx, p) := dispatch req (pool s) in
      {| cors := g; rate := Some r; answer := a; log := fx;
         after := {| pool := p; limiter := lim |} |}
  else
    let '(a, fx, p) := dispatch req (pool s) in
    {| cors := g; rate := None; answer := a; log := fx;
       after := {| pool := p; limiter := limiter s |} |}.

(** [cors({...})], on every path, and what comes after it: a granted
    preflight request is answered by the CORS middleware itself, an error
    from the origin callback by the framework's error handler. *)
Definition from_cors (origins : list string) (now : Z) (req : request)
    (s : server) : result :=
  let g := Cors.middleware (Cors.server_options origins) req in
  let stop (r : response) :=
    {| cors := g; rate := None; answer := Some r; log := []; after := s |} in
  match g with
  | Cors.no_headers (Some e) =>
      stop {| status := 500; content := framework_error e |}
  | Cors.allowed _ _ =>
      if is_options (req_method req)
      then stop {| status := 204; content := empty |}
      else behind_cors g now req s
  | Cors.no_headers None => behind_cors g now req s
  end.

(** The status the framework's error handler answers with: the one the
    error carries when that is a 4xx or a 5xx, and 500 otherwise. *)
Definition answered_status (e : body_error) : Z :=
  if (400 <=? error_status e) && (error_status e <? 600)
  then error_status e else 500.

(** One request through the middleware stack of [server.js]:
    [express.json()] first.  When it refuses the body, the framework
    skips every middleware and route that follows and its error handler
    answers with the error's status: no CORS header is granted, the
    limiter does not count the request, no handler runs. *)
Definition app (origins : list string) (now : Z) (req : request) (s : server)
  : result :=
  match req_body_error req with
  | Some e =>
      {| cors := Cors.no_headers None; rate := None;
         answer := Some {| status := answered_status e;
                           content := refused_body e |};
         log := []; after := s |}
  | None => from_cors origins now req s
  end.

(** *** Start-up *)

(** [const defaultPort = process.env.PORT || 8080]. *)
Definition defaultPort (env_port : option string) : port :=
  match env_port with
  | Some s => if JS.truthy_string s then port_string s
              else port_number (JS.Fin 8080)
  | None => port_number (JS.Fin 8080)
  end.

(** [Number(port)]. *)
Definition port_to_number (p : port) : JS.number :=
  match p with
  | port_number n => n
  | port_string s => JS.string_to_number s
  end.

(** The port of the next attempt: [Number(port) + 1]. *)
Definition next_port (p : port) : port :=
  port_number (JS.succ_number (port_to_number p)).

(** What becomes of a call of [app.listen]: the [listening] callback
    runs, or the [error] event fires with a code, or the call itself
    throws (a port out of range). *)
Inductive listen_event : Type :=
| listening
| error_event (code : string)
| throws (code : string).

(** [startServer(port)].  The result is the port the server listens on,
    if any, and what was done on the way; nothing in [server.js] catches
    what [app.listen] throws.  [fuel] bounds the number of attempts; the
    source has no bound. *)
Fixpoint startServer (fuel : nat) (os : port -> listen_event) (p : port)
  : option (option port * list effect) :=
  match fuel with
  | O => None
  | S fuel' =>
      match os p with
      | listening => Some (Some p, [listen p; console_log_listening p])
      | error_event code =>
          if String.eqb code "EADDRINUSE"
          then
            match startServer fuel' os (next_port p) with
            | Some (bound, fx) =>
                Some (bound, listen p :: console_warn_port_busy p :: fx)
            | None => None
            end
          else Some (None, [listen p; console_error_server code])
      | throws code => Some (None, [listen p; uncaught_exception code])
      end
  end.

End Server.

(** ** Vocabulary of the specification *)

Module Spec.
Import Express Server.

(** The [i]-th port [startServer] tries, counting from the first. *)
Fixpoint attempt (p : port) (i : nat) : port :=
  match i with
  | O => p
  | S i' => attempt (next_port p) i'
  end.

(** What the failed attempts before the [k]-th leave on the console. *)
Fixpoint busy_trace (p : port) (k : nat) : list effect :=
  match k with
  | O => []
  | S k' => listen p :: console_warn_port_busy p :: busy_trace (next_port p) k'
  end.

(** The CORS rule in the words of the specification: the allow-list is
    empty, or the request carries no origin header, or its origin is on
    the allow-list. *)
Definition permitted_as_specified (origins : list string)
    (origin : option string) : Prop :=
  origins = [] \/ origin = None \/ exists o, origin = Some o /\ In o origins.

(** The same rule with the empty header value counted as no origin. *)
Definition permitted (origins : list string) (origin : option string) : Prop :=
  origins = [] \/ origin = None \/ origin = Some EmptyString
  \/ exists o, origin = Some o /\ In o origins.

(** The configured allow-list as a plain string: [CORS_ORIGIN || '']. *)
Definition configured (cors_origin : option string) : string :=
  match cors_origin with
  | Some s => s
  | None => EmptyString
  end.

(** The text of a submission is a string of 1 to 2000 characters: what
    is wrong with [text] otherwise. *)
Definition text_issue (t : value) : option Zod.issue_code :=
  match t with
  | VStr s =>
      if Z.of_nat (String.length s) <? 1 then Some (Zod.too_small 1)
      else if 2000 <? Z.of_nat (String.length s) then Some (Zod.too_big 2000)
      else None
  | _ => Some (Zod.invalid_type Zod.TString (Zod.getParsedType t))
  end.

(** The meta of a submission is omitted or an object: what is wrong with
    [meta] otherwise. *)
Definition meta_issue (m : value) : option Zod.issue_code :=
  match m with
  | VUndefined | VObj _ => None
  | _ => Some (Zod.invalid_type Zod.TObject (Zod.getParsedType m))
  end.

(** A body that fails validation, in the words of the specification. *)
Inductive invalid_submission (b : value) : Prop :=
| text_missing : get "text" b = VUndefined -> invalid_submission b
| text_empty : get "text" b = VStr EmptyString -> invalid_submission b
| text_not_a_string : (forall s, get "text" b <> VStr s) -> invalid_submission b
| text_too_long (s : string) :
    get "text" b = VStr s -> 2000 < Z.of_nat (String.length s) ->
    invalid_submission b
| meta_not_an_object :
    get "meta" b <> VUndefined -> (forall m, get "meta" b <> VObj m) ->
    invalid_submission b.

(** The description of a failed validation: what is wrong with the body
    as a whole, and what is wrong with each field. *)
Definition described (k : string) (w : option Zod.issue_code)
  : list (string * list Zod.issue_code) :=
  match w with
  | Some why => [(k, [why])]
  | None => []
  end.

Definition expected_details (b : value) : Zod.flattened :=
  match b with
  | VObj fields =>
      {| Zod.formErrors := [];
         Zod.fieldErrors :=
           described "text" (text_issue (prop "text" fields))
           ++ described "meta" (meta_issue (prop "meta" fields)) |}
  | _ =>
      {| Zod.formErrors := [Zod.invalid_type Zod.TObject (Zod.getParsedType b)];
         Zod.fieldErrors := [] |}
  end.

(** The issue raised for a field with something wrong. *)
Definition field_issue (k : string) (w : option Zod.issue_code)
  : list Zod.issue :=
  match w with
  | Some why => [{| Zod.issue_path := [k]; Zod.issue_why := why |}]
  | None => []
  end.

(** The document stored for an accepted [meta]: the object itself, less
    a [__proto__] key. *)
Definition stored_meta (m : list (string * value)) : value :=
  VObj (List.filter (fun kv => negb (String.eqb (fst kv) "__proto__")) m).

(** The document stored for a submission whose [meta] field is [m]. *)
Definition meta_document (m : value) : value :=
  match m with
  | VObj fs => stored_meta fs
  | _ => VObj []
  end.

(** Addresses are non-empty strings. *)
Definition addresses_well_formed (req : request) : Prop :=
  Forall (fun a => a <> EmptyString) (req_ips req)
  /\ req_ip req <> Some EmptyString.

(** A run of the application over requests arriving at the given
    times, each served in the state the one before left. *)
Fixpoint serve (origins : list string) (trace : list (Z * request))
    (s : server) : list result :=
  match trace with
  | [] => []
  | (now, req) :: rest =>
      let r := app origins now req s in
      r :: serve origins rest (after r)
  end.

(** The requests the limiter sees: those under [/api/] whose body the
    JSON parser did not refuse, except the preflight requests the CORS
    middleware answers itself. *)
Definition reaches_limiter (origins : list string) (req : request) : bool :=
  match req_body_error req with
  | Some _ => false
  | None =>
      mounted "/api/" (req_path req)
      && negb (is_options (req_method req)
               && snd (Cors.origin_callback origins (req_origin req)))
  end.

(** The limiter counted the request and rejected it. *)
Definition rejected_by_limiter (r : result) : bool :=
  match rate r with
  | Some rep => RateLimit.rejected rep
  | None => false
  end.

(** How many of the requests of a trace the limiter counts for a key. *)
Definition counted_for (origins : list string) (key : option string)
    (trace : list (Z * request)) : nat :=
  length (List.filter
            (fun tr => reaches_limiter origins (snd tr)
                       && bool_decide (req_ip (snd tr) = key))
            trace).

(** No window is running for the key at time [t0]. *)
Definition no_window (lim : gmap (option string) RateLimit.client)
    (key : option string) (t0 : Z) : Prop :=
  match lim !! key with
  | Some c => RateLimit.resetTime c <= t0
  | None => True
  end.

(** The limiter's view of a key after [c] counted requests of a window
    that opened at or after [t0]. *)
Definition in_window (lim : gmap (option string) RateLimit.client)
    (key : option string) (t0 : Z) (c : nat) : Prop :=
  match c with
  | O => no_window lim key t0
  | S _ =>
      exists cl, lim !! key = Some cl
                 /\ RateLimit.totalHits cl = Z.of_nat c
                 /\ t0 + 60000 <= RateLimit.resetTime cl
  end.

(** The decimal numeral with the given digits, most significant first,
    and the value clamped to the range of a page size. *)
Definition digit_char (d : Z) : ascii := ascii_of_N (Z.to_N (48 + d)).

Definition numeral (ds : list Z) : string :=
  string_of_list_ascii (map digit_char ds).

Definition is_numeral (ds : list Z) : Prop :=
  ds <> [] /\ Forall (fun d => 0 <= d < 10) ds.

Definition clamp (v : Z) : Z := Z.max 1 (Z.min 100 v).

(** A string without a comma. *)
Definition comma_free (s : string) : Prop :=
  Forall (fun c => JS.code c <> 44) (list_ascii_of_string s).

(** An origin as one writes it in [CORS_ORIGIN]: not empty, without a
    comma, without white space at either end. *)
Definition plain_origin (o : string) : Prop :=
  o <> EmptyString /\ comma_free o /\ JS.trim o = o.

(** A field of a JSON response body. *)
Definition body_field (k : string) (r : response) : value :=
  match content r with
  | json v => get k v
  | _ => VUndefined
  end.

(** The same request with another origin header. *)
Definition with_origin (o : option string) (req : request) : request :=
  {| req_method := req_method req; req_path := req_path req;
     req_origin := o; req_query_limit := req_query_limit req;
     req_body := req_body req; req_body_error := req_body_error req;
     req_ips := req_ips req; req_ip := req_ip req |}.

(** A query value that holds, at any depth of arrays, an object with an
    own [toString] key. *)
Fixpoint holds_own_toString (v : qval) : bool :=
  match v with
  | QStr _ => false
  | QArr items => existsb holds_own_toString items
  | QObj fields => own_key "toString" fields
  end.

(** The rate-limit response. *)
Definition rate_limited : response :=
  {| status := 429; content := too_many_requests |}.

End Spec.

(** ** Sample data *)

Module Sample.
Import Express Server.

(** An empty store that accepts every statement. *)
Definition empty_db : Pg.db :=
  {| Pg.table := []; Pg.next_id := 1; Pg.clock := 1000;
     Pg.refuses := fun _ => None |}.

(** A store that has lost its connection. *)
Definition broken_db : Pg.db :=
  {| Pg.table := []; Pg.next_id := 1; Pg.clock := 1000;
     Pg.refuses := fun _ => Some (Pg.db_error "ECONNREFUSED") |}.

(** A store with three entries, inserted at times 10, 30 and 20. *)
Definition three_rows : Pg.db :=
  {| Pg.table :=
       [ {| Pg.row_id := 1; Pg.row_text := "first"; Pg.row_ip := None;
            Pg.row_meta := Some (JObj []); Pg.row_created_at := 10 |};
         {| Pg.row_id := 2; Pg.row_text := "second"; Pg.row_ip := None;
            Pg.row_meta := Some (JObj []); Pg.row_created_at := 30 |};
         {| Pg.row_id := 3; Pg.row_text := "third"; Pg.row_ip := None;
            Pg.row_meta := Some (JObj []); Pg.row_created_at := 20 |} ];
     Pg.next_id := 4; Pg.clock := 40;
     Pg.refuses := fun _ => None |}.

Definition fresh_server : server := {| pool := empty_db; limiter := ∅ |}.

Definition a_request (m : method) (path : string) : request :=
  {| req_method := m; req_path := path; req_origin := None;
     req_query_limit := None; req_body := VUndefined;
     req_body_error := None; req_ips := []; req_ip := Some "10.0.0.1" |}.

Definition from_origin (o : string) (req : request) : request :=
  {| req_method := req_method req; req_path := req_path req;
     req_origin := Some o; req_query_limit := req_query_limit req;
     req_body := req_body req; req_body_error := req_body_error req;
     req_ips := req_ips req; req_ip := req_ip req |}.

Definition with_limit (l : string) (req : request) : request :=
  {| req_method := req_method req; req_path := req_path req;
     req_origin := req_origin req; req_query_limit := Some (QStr l);
     req_body := req_body req; req_body_error := req_body_error req;
     req_ips := req_ips req; req_ip := req_ip req |}.

Definition with_query (v : qval) (req : request) : request :=
  {| req_method := req_method req; req_path := req_path req;
     req_origin := req_origin req; req_query_limit := Some v;
     req_body := req_body req; req_body_error := req_body_error req;
     req_ips := req_ips req; req_ip := req_ip req |}.

Definition with_body (b : value) (req : request) : request :=
  {| req_method := req_method req; req_path := req_path req;
     req_origin := req_origin req; req_query_limit := req_query_limit req;
     req_body := b; req_body_error := req_body_error req;
     req_ips := req_ips req; req_ip := req_ip req |}.

Definition forwarded_for (a : string) (req : request) : request :=
  {| req_method := req_method req; req_path := req_path req;
     req_origin := req_origin req; req_query_limit := req_query_limit req;
     req_body := req_body req; req_body_error := req_body_error req;
     req_ips := [a]; req_ip := Some a |}.

(** The error of the body parser on malformed JSON. *)
Definition malformed : body_error :=
  {| error_status := 400; error_type := "entity.parse.failed" |}.

(** The same request with a body the parser refuses. *)
Definition refused (e : body_error) (req : request) : request :=
  {| req_method := req_method req; req_path := req_path req;
     req_origin := req_origin req; req_query_limit := req_query_limit req;
     req_body := VUndefined; req_body_error := Some e;
     req_ips := req_ips req; req_ip := req_ip req |}.

Definition list_request : request := a_request GET "/api/queries".
Definition health_request : request := a_request GET "/api/health".

Definition hello : value :=
  VObj [("text", VStr "hello"); ("meta", VObj [("k", VNum (JS.Fin 1))])].

Definition create_request (b : value) : request :=
  with_body b (a_request POST "/api/queries").

(** Sixty-one listing requests from one address, half a second apart. *)
Definition burst : list (Z * request) :=
  map (fun i => (Z.of_nat i * 500, list_request)) (seq 0 61).

(** One listing request at time 0, then sixty-one from the same address
    between 59 s and 60.8 s, 30 ms apart. *)
Definition late_burst : list (Z * request) :=
  (0, list_request)
  :: map (fun i => (59000 + Z.of_nat i * 30, list_request)) (seq 0 61).

(** Sixty-one health requests from one address, half a second apart. *)
Definition health_burst : list (Z * request) :=
  map (fun i => (Z.of_nat i * 500, health_request)) (seq 0 61).

(** An operating system on which every port gives [EACCES]. *)
Definition no_permission (_ : port) : listen_event := error_event "EACCES".

(** An operating system on which the ports up to 8081 are taken. *)
Definition two_ports_taken (p : port) : listen_event :=
  match port_to_number p with
  | JS.Fin q => if Qle_bool q 8081 then error_event "EADDRINUSE" else listening
  | _ => throws "ERR_SOCKET_BAD_PORT"
  end.

End Sample.

(** ** Facts about the embedded JavaScript operations *)

Example number_500 : JS.string_to_number "500" = JS.Fin 500.
Proof. reflexivity. Qed.
Example number_m5 : JS.string_to_number " -5 " = JS.Fin (-5).
Proof. reflexivity. Qed.
Example number_1e2 : JS.string_to_number "1e2" = JS.Fin 100.
Proof. reflexivity. Qed.
Example number_frac : JS.string_to_number "1.5" = JS.Fin (3 # 2).
Proof. vm_compute. reflexivity. Qed.
Example number_hex : JS.string_to_number "0x10" = JS.Fin 16.
Proof. reflexivity. Qed.
Example number_abc : JS.string_to_number "abc" = JS.NaN.
Proof. reflexivity. Qed.
Example number_dot : JS.string_to_number "." = JS.NaN.
Proof. reflexivity. Qed.
Example number_inf : JS.string_to_number "-Infinity" = JS.NegInf.
Proof. reflexivity. Qed.
Example number_empty : JS.string_to_number "" = JS.Fin 0.
Proof. reflexivity. Qed.
Example number_junk : JS.string_to_number "12px" = JS.NaN.
Proof. reflexivity. Qed.
Example number_exp : JS.string_to_number "25e-1" = JS.Fin (5 # 2).
Proof. vm_compute. reflexivity. Qed.
Example number_tenth :
  JS.string_to_number "0.1" = JS.Fin (3602879701896397 # 36028797018963968).
Proof. vm_compute. reflexivity. Qed.
Example number_rounds_up :
  JS.string_to_number "99.99999999999999999999" = JS.Fin 100.
Proof. vm_compute. reflexivity. Qed.
Example number_rounds_down :
  JS.string_to_number "1.00000000000000000001" = JS.Fin 1.
Proof. vm_compute. reflexivity. Qed.
Example number_underflow : JS.string_to_number "1e-400" = JS.Fin 0.
Proof. vm_compute. reflexivity. Qed.
Example number_overflow : JS.string_to_number "1e400" = JS.PosInf.
Proof. vm_compute. reflexivity. Qed.
Example number_tie_to_even :
  JS.string_to_number "9007199254740993" = JS.Fin 9007199254740992.
Proof. vm_compute. reflexivity. Qed.
Example number_largest :
  JS.string_to_number "1.7976931348623159e308" = JS.PosInf.
Proof. vm_compute. reflexivity. Qed.
Example number_smallest :
  JS.string_to_number "5e-324" = JS.Fin (1 # Z.to_pos (2 ^ 1074)).
Proof. vm_compute. reflexivity. Qed.
Example succ_rounds :
  JS.succ_number (JS.Fin 9007199254740992) = JS.Fin 9007199254740992.
Proof. vm_compute. reflexivity. Qed.
Example number_bin : JS.string_to_number "0b101" = JS.Fin 5.
Proof. reflexivity. Qed.


Section js_facts.
Import JS.

Lemma truthy_string_spec (s : string) :
  truthy_string s = false <-> s = EmptyString.
Proof. destruct s; simpl; split; congruence. Qed.

Lemma includes_spec (origins : list string) (o : string) :
  Cors.includes origins (Some o) = true <-> In o origins.
Proof.
  simpl. rewrite existsb_exists. split.
  - intros (x & Hin & Heq). apply String.eqb_eq in Heq. now subst.
  - intros Hin. exists o. split; [exact Hin | apply String.eqb_refl].
Qed.

Lemma no_origins_spec (origins : list string) :
  (Z.of_nat (length origins) =? 0) = true <-> origins = [].
Proof.
  destruct origins as [|o origins]; split; intros H;
    try reflexivity; try discriminate.
Qed.

End js_facts.

(** ** The CORS decision *)

Section cors_facts.
Import Express Server Spec.

(** The callback answers [true] exactly under the amended rule. *)
Lemma origin_callback_true (origins : list string) (origin : option string) :
  snd (Cors.origin_callback origins origin) = true <-> permitted origins origin.
Proof.
  unfold Cors.origin_callback, permitted.
  destruct (Cors.falsy_origin origin) eqn:Hf; simpl.
  - split; [intros _ | reflexivity].
    destruct origin as [o|]; [|tauto]. simpl in Hf.
    apply negb_true_iff, truthy_string_spec in Hf. subst. tauto.
  - destruct (Z.of_nat (length origins) =? 0) eqn:Hn; simpl.
    + apply no_origins_spec in Hn. split; [tauto | reflexivity].
    + destruct origin as [o|]; [|discriminate].
      simpl in Hf. apply negb_false_iff in Hf.
      assert (o <> EmptyString) as Ho.
      { intros ->. discriminate. }
      assert (origins <> []) as Hne.
      { intros E. apply no_origins_spec in E. congruence. }
      destruct (Cors.includes origins (Some o)) eqn:Hi; simpl.
      * apply includes_spec in Hi. split; [|reflexivity].
        intros _. right. right. right. eauto.
      * split; [discriminate|].
        intros [E | [E | [E | (o' & E & Hin)]]]; try congruence.
        inversion E; subst o'. apply includes_spec in Hin. congruence.
Qed.

Lemma origin_callback_no_error (origins : list string) (origin : option string) :
  fst (Cors.origin_callback origins origin) = None.
Proof.
  unfold Cors.origin_callback.
  destruct (_ || _ || _); reflexivity.
Qed.

(** A request the body parser lets through goes on to the CORS
    middleware; one it refuses is answered at once. *)
Lemma app_accepted (origins : list string) (now : Z) (req : request) (s : server) :
  req_body_error req = None -> app origins now req s = from_cors origins now req s.
Proof. intros H. unfold app. rewrite H. reflexivity. Qed.

Lemma app_refused (origins : list string) (now : Z) (req : request) (s : server)
    (e : body_error) :
  req_body_error req = Some e ->
  app origins now req s
  = {| cors := Cors.no_headers None; rate := None;
       answer := Some {| status := answered_status e; content := refused_body e |};
       log := []; after := s |}.
Proof. intros H. unfold app. rewrite H. reflexivity. Qed.

(** Whatever the route, the grant of a response is the one the CORS
    middleware computed. *)
Lemma from_cors_cors (origins : list string) (now : Z) (req : request) (s : server) :
  cors (from_cors origins now req s)
  = Cors.middleware (Cors.server_options origins) req.
Proof.
  unfold from_cors.
  destruct (Cors.middleware _ req) as [[e|]|ao ac]; simpl; try reflexivity.
  - unfold behind_cors.
    destruct (mounted _ _); [destruct (RateLimit.middleware _ _ _ _) as [r lim];
      destruct (RateLimit.rejected r)|];
      try destruct (dispatch _ _) as [[a fx] p]; reflexivity.
  - destruct (is_options _); [reflexivity|].
    unfold behind_cors.
    destruct (mounted _ _); [destruct (RateLimit.middleware _ _ _ _) as [r lim];
      destruct (RateLimit.rejected r)|];
      try destruct (dispatch _ _) as [[a fx] p]; reflexivity.
Qed.

Lemma app_cors (origins : list string) (now : Z) (req : request) (s : server) :
  req_body_error req = None ->
  cors (app origins now req s)
  = Cors.middleware (Cors.server_options origins) req.
Proof. intros H. rewrite app_accepted by exact H. apply from_cors_cors. Qed.

Lemma middleware_grant (origins : list string) (req : request) :
  Cors.middleware (Cors.server_options origins) req
  = if snd (Cors.origin_callback origins (req_origin req))
    then Cors.allowed
           (if Cors.falsy_origin (req_origin req) then None else req_origin req)
           true
    else Cors.no_headers None.
Proof.
  unfold Cors.middleware. simpl.
  pose proof (origin_callback_no_error origins (req_origin req)) as He.
  destruct (Cors.origin_callback origins (req_origin req)) as [e b].
  simpl in *. subst e. destruct b; reflexivity.
Qed.

Lemma origins_of_spec (env : option string) (o : string) :
  In o (Cors.origins_of env)
  <-> o <> EmptyString
      /\ exists piece, In piece (Cors.split_commas (configured env))
                       /\ JS.trim piece = o.
Proof.
  assert (Cors.origins_of env
          = List.filter JS.truthy_string
              (map JS.trim (Cors.split_commas (configured env)))) as ->.
  { unfold Cors.origins_of, configured.
    destruct env as [[|c s]|]; reflexivity. }
  rewrite filter_In, in_map_iff. split.
  - intros [(x & Hx & Hin) Ht]. split; [|eauto].
    intros ->. discriminate.
  - intros [Hne (x & Hin & Hx)]. split; [eauto|].
    destruct o; [congruence | reflexivity].
Qed.

End cors_facts.

(** ** Theorems: CORS *)

Section cors_claims.
Import Express Server Spec.

(** C5, as amended: for every request, on any route, that the JSON body
    parser registered ahead of the CORS check does not refuse, the CORS
    check permits the request, with credentials allowed, when the
    allow-list is empty, or the request carries no origin header or an
    empty one, or its origin is on the allow-list; otherwise no CORS
    header is granted.  A request whose body the parser refuses gets no
    CORS header, whatever its origin.  The allow-list holds the non-empty
    trimmed pieces of the comma-separated [CORS_ORIGIN]. *)
Theorem cors_permits_exactly (env : option string) (now : Z) (req : request)
    (s : server) :
  let origins := Cors.origins_of env in
  (req_body_error req = None ->
   (cors (app origins now req s)
    = Cors.allowed
        (if Cors.falsy_origin (req_origin req) then None else req_origin req)
        true
    <-> permitted origins (req_origin req))
   /\ (cors (app origins now req s) = Cors.no_headers None
       <-> ~ permitted origins (req_origin req)))
  /\ (req_body_error req <> None ->
      cors (app origins now req s) = Cors.no_headers None)
  /\ (forall o, In o origins
                <-> o <> EmptyString
                    /\ exists piece, In piece (Cors.split_commas (configured env))
                                     /\ JS.trim piece = o).
Proof.
  intros origins. split; [|split; [|apply origins_of_spec]].
  - intros Hacc. rewrite app_cors, middleware_grant by exact Hacc.
    pose proof (origin_callback_true origins (req_origin req)) as Hcb.
    destruct (snd (Cors.origin_callback origins (req_origin req))).
    + split.
      * split; [intros _; apply Hcb; reflexivity | reflexivity].
      * split; [discriminate|]. intros Hn. exfalso. apply Hn, Hcb. reflexivity.
    + split.
      * split; [discriminate|]. intros Hp. apply Hcb in Hp. discriminate.
      * split; [|reflexivity]. intros _ Hp. apply Hcb in Hp. discriminate.
  - intros Href. destruct (req_body_error req) as [e|] eqn:He; [|congruence].
    rewrite (app_refused _ _ _ _ e He). reflexivity.
Qed.

Lemma cors_permits_exactly_witness :
  cors (app (Cors.origins_of (Some "https://a.com, https://b.com")) 0
            (Sample.from_origin "https://b.com" Sample.health_request)
            Sample.fresh_server)
  = Cors.allowed (Some "https://b.com") true.
Proof.
  apply (proj2 (proj1 (proj1 (cors_permits_exactly
                                (Some "https://a.com, https://b.com") 0
                                (Sample.from_origin "https://b.com"
                                   Sample.health_request)
                                Sample.fresh_server) eq_refl))).
  right. right. right. exists "https://b.com". split; [reflexivity|].
  vm_compute. right. left. reflexivity.
Defined.

(** C5 as written fails in two ways.  A request whose origin header is
    present but empty is permitted although the allow-list is not empty
    and does not hold its origin.  And a request whose body the JSON
    parser refuses gets no CORS header although its origin is on the
    allow-list. *)
Lemma cors_empty_origin_header :
  let origins := Cors.origins_of (Some "https://a.com") in
  let req := Sample.from_origin "" Sample.health_request in
  let bad :=
    Sample.refused Sample.malformed
      (Sample.from_origin "https://a.com" (Sample.create_request Sample.hello)) in
  (cors (app origins 0 req Sample.fresh_server) = Cors.allowed None true
   /\ ~ permitted_as_specified origins (req_origin req))
  /\ (cors (app origins 0 bad Sample.fresh_server) = Cors.no_headers None
      /\ permitted_as_specified origins (req_origin bad)).
Proof.
  split; split.
  - reflexivity.
  - intros [E | [E | (o & E & Hin)]]; try discriminate.
    vm_compute in Hin. destruct Hin as [E' | []]. subst o. discriminate.
  - reflexivity.
  - right. right. exists "https://a.com". split; [reflexivity|].
    vm_compute. left. reflexivity.
Qed.

(** C10, as amended: for a fixed allow-list, the CORS decision on the
    requests that reach the CORS check (those the JSON body parser does
    not refuse) is a function of the origin header alone: two such
    requests with the same origin header get the same decision whatever
    their method, path, body, addresses, time of arrival and the state of
    the server; and the callback never reports an error. *)
Theorem cors_decision_by_origin_alone (origins : list string)
    (now1 now2 : Z) (r1 r2 : request) (s1 s2 : server) :
  req_body_error r1 = None -> req_body_error r2 = None ->
  req_origin r1 = req_origin r2 ->
  cors (app origins now1 r1 s1) = cors (app origins now2 r2 s2)
  /\ cors (app origins now1 r1 s1)
     = (if snd (Cors.origin_callback origins (req_origin r1))
        then Cors.allowed
               (if Cors.falsy_origin (req_origin r1) then None else req_origin r1)
               true
        else Cors.no_headers None)
  /\ fst (Cors.origin_callback origins (req_origin r1)) = None
  /\ forall e, cors (app origins now1 r1 s1) <> Cors.no_headers (Some e).
Proof.
  intros H1 H2 E. rewrite !app_cors, !middleware_grant, E by assumption.
  split; [reflexivity|]. split; [reflexivity|].
  split; [rewrite <- E; apply origin_callback_no_error|].
  intros e. destruct (snd _); discriminate.
Qed.

Lemma cors_decision_by_origin_alone_witness :
  cors (app ["https://a.com"] 0
            (Sample.from_origin "https://b.com" Sample.health_request)
            Sample.fresh_server)
  = cors (app ["https://a.com"] 61000
              (Sample.from_origin "https://b.com"
                 (Sample.create_request Sample.hello))
              {| pool := Sample.broken_db; limiter := ∅ |}).
Proof.
  apply (proj1 (cors_decision_by_origin_alone ["https://a.com"] 0 61000
           (Sample.from_origin "https://b.com" Sample.health_request)
           (Sample.from_origin "https://b.com"
              (Sample.create_request Sample.hello))
           Sample.fresh_server
           {| pool := Sample.broken_db; limiter := ∅ |}
           eq_refl eq_refl eq_refl)).
Defined.

(** A request whose body the parser refuses is answered by the
    framework with the error's status; nothing else runs. *)
Example refused_body_is_answered_at_once :
  app ["https://a.com"] 0
    (Sample.refused Sample.malformed
       (Sample.from_origin "https://a.com" (Sample.create_request Sample.hello)))
    Sample.fresh_server
  = {| cors := Cors.no_headers None; rate := None;
       answer := Some {| status := 400;
                         content := refused_body Sample.malformed |};
       log := []; after := Sample.fresh_server |}.
Proof. reflexivity. Qed.

(** C10 as written fails at the application: of two requests with the
    same origin header, on the allow-list, the one whose body the JSON
    parser refuses gets no CORS header and the other is permitted; the
    outcome depends on the body. *)
Lemma cors_outcome_depends_on_body :
  let origins := ["https://a.com"] in
  let good :=
    Sample.from_origin "https://a.com" (Sample.create_request Sample.hello) in
  let bad := Sample.refused Sample.malformed good in
  req_origin good = req_origin bad
  /\ cors (app origins 0 good Sample.fresh_server)
     = Cors.allowed (Some "https://a.com") true
  /\ cors (app origins 0 bad Sample.fresh_server) = Cors.no_headers None.
Proof. repeat split. Qed.

End cors_claims.

(** ** Theorems: the effective limit of a listing *)

Section limit_claims.
Import Express Server.

(** The expression of line 91 by cases on [Number(req.query.limit)]. *)
Lemma clamped_cases (n : JS.number) :
  clamped n
  = match n with
    | JS.NaN => JS.Fin 20
    | JS.PosInf => JS.Fin 100
    | JS.NegInf => JS.Fin 1
    | JS.Fin q =>
        if Qnum q =? 0 then JS.Fin 20
        else if Qle_bool 100 q then JS.Fin 100
        else if Qle_bool q 1 then JS.Fin 1
        else JS.Fin q
    end.
Proof.
  unfold clamped.
  destruct n as [| | |q]; try reflexivity.
  unfold JS.or_number, JS.truthy_number.
  destruct (Qnum q =? 0); [reflexivity|]. simpl.
  destruct (Qle_bool 100 q); [reflexivity|]. simpl.
  destruct (Qle_bool q 1); reflexivity.
Qed.

(** The clamped value is always a finite number between 1 and 100. *)
Lemma clamped_range (n : JS.number) :
  exists q, clamped n = JS.Fin q /\ (1 <= q)%Q /\ (q <= 100)%Q.
Proof.
  rewrite clamped_cases.
  destruct n as [| | |q].
  - exists 20%Q. split; [reflexivity|]. split; discriminate.
  - exists 100%Q. split; [reflexivity|]. split; discriminate.
  - exists 1%Q. split; [reflexivity|]. split; discriminate.
  - destruct (Qnum q =? 0).
    { exists 20%Q. split; [reflexivity|]. split; discriminate. }
    destruct (Qle_bool 100 q) eqn:Hhi.
    { exists 100%Q. split; [reflexivity|]. split; discriminate. }
    destruct (Qle_bool q 1) eqn:Hlo.
    { exists 1%Q. split; [reflexivity|]. split; discriminate. }
    exists q. split; [reflexivity|]. split.
    + apply Qlt_le_weak, Qnot_le_lt. intros H.
      apply Qle_bool_iff in H. congruence.
    + apply Qlt_le_weak, Qnot_le_lt. intros H.
      apply Qle_bool_iff in H. congruence.
Qed.

Lemma effective_limit_range (req : request) (n : JS.number) :
  effective_limit req = Some n ->
  exists q, n = JS.Fin q /\ (1 <= q)%Q /\ (q <= 100)%Q.
Proof.
  unfold effective_limit.
  destruct (to_number (req_query_limit req)) as [m|]; [|discriminate].
  intros H. assert (n = clamped m) as -> by congruence. apply clamped_range.
Qed.

(** [Number] applied to the [limit] parameter throws exactly when the
    conversion of the parameter to a string does. *)
Lemma effective_limit_throws (req : request) :
  effective_limit req = None
  <-> exists v, req_query_limit req = Some v /\ qval_to_string v = None.
Proof.
  unfold effective_limit, to_number.
  destruct (req_query_limit req) as [v|].
  - destruct (qval_to_string v) as [str|] eqn:Hs.
    + split; [discriminate|]. intros (v' & E & Hn). congruence.
    + split; [eauto | reflexivity].
  - split; [discriminate|]. intros (v' & E & _). discriminate.
Qed.

(** An induction principle that reaches the elements of an array. *)
Lemma qval_nested_ind (P : qval -> Prop) :
  (forall s, P (QStr s)) ->
  (forall items, Forall P items -> P (QArr items)) ->
  (forall fields, P (QObj fields)) ->
  forall v, P v.
Proof.
  intros Hs Ha Ho. fix IH 1. intros [str|items|fields].
  - apply Hs.
  - apply Ha. induction items as [|x items IHitems]; constructor.
    + apply IH.
    + exact IHitems.
  - apply Ho.
Qed.

Lemma all_strings_none (l : list (option string)) :
  all_strings l = None <-> In None l.
Proof.
  induction l as [|[x|] l IH]; simpl.
  - split; [discriminate | tauto].
  - destruct (all_strings l).
    + split; [discriminate|]. intros [E|H]; [discriminate|].
      apply IH in H. discriminate.
    + split; [intros _; right; apply IH; reflexivity | reflexivity].
  - split; [auto | reflexivity].
Qed.

(** The conversion throws exactly for a value that holds, at any depth of
    arrays, an object with an own [toString] key. *)
Lemma qval_to_string_throws (v : qval) :
  qval_to_string v = None <-> Spec.holds_own_toString v = true.
Proof.
  induction v as [str|items IH|fields] using qval_nested_ind.
  - simpl. split; discriminate.
  - cbn [qval_to_string Spec.holds_own_toString].
    rewrite existsb_exists.
    assert (all_strings (map qval_to_string items) = None
            <-> exists x, In x items /\ Spec.holds_own_toString x = true) as <-.
    { rewrite all_strings_none, in_map_iff. rewrite List.Forall_forall in IH.
      split.
      - intros (x & Hx & Hin). exists x. split; [exact Hin|].
        apply (IH x Hin). exact Hx.
      - intros (x & Hin & Hx). exists x. split; [|exact Hin].
        apply (IH x Hin). exact Hx. }
    destruct (all_strings (map qval_to_string items));
      split; congruence.
  - simpl. destruct (own_key "toString" fields); split; congruence.
Qed.

(** X3: whenever [Number(req.query.limit)] does not throw, the effective
    limit of a listing request is a finite number between 1 and 100,
    whatever the [limit] parameter.  It throws exactly when the parameter
    holds, at any depth of arrays, an object with an own [toString] key;
    never, then, for an absent parameter or a string. *)
Theorem effective_limit_always_in_range (req : request) :
  (forall n, effective_limit req = Some n ->
     exists q, n = JS.Fin q /\ (1 <= q)%Q /\ (q <= 100)%Q)
  /\ (effective_limit req = None
      <-> exists v, req_query_limit req = Some v
                    /\ Spec.holds_own_toString v = true)
  /\ (req_query_limit req = None -> effective_limit req = Some (JS.Fin 20))
  /\ (forall str, req_query_limit req = Some (QStr str) ->
        effective_limit req <> None).
Proof.
  split; [apply effective_limit_range|]. split; [|split].
  - rewrite effective_limit_throws. split.
    + intros (v & E & Hv). exists v. split; [exact E|].
      apply qval_to_string_throws. exact Hv.
    + intros (v & E & Hv). exists v. split; [exact E|].
      apply qval_to_string_throws. exact Hv.
  - intros E. unfold effective_limit. rewrite E. reflexivity.
  - intros str E. unfold effective_limit. rewrite E. discriminate.
Qed.

(** A parameter that is not numeric, or absent, gives 20. *)
Lemma effective_limit_default (req : request) :
  to_number (req_query_limit req) = Some JS.NaN ->
  effective_limit req = Some (JS.Fin 20).
Proof. intros H. unfold effective_limit. rewrite H. reflexivity. Qed.

(** C1, at the inputs the specification names: [limit=500] gives 100,
    [limit=-5] gives 1, an absent or non-numeric [limit] gives 20, but
    [limit=0] gives 20 as well, where the claim has 1: the number 0 is
    falsy, so [Number(req.query.limit) || 20] replaces it by the default
    before [Math.max(1, ...)] can raise it to 1. *)
Theorem limit_zero_takes_default :
  effective_limit (Sample.with_limit "0" Sample.list_request)
  = Some (JS.Fin 20)
  /\ effective_limit (Sample.with_limit "500" Sample.list_request)
     = Some (JS.Fin 100)
  /\ effective_limit (Sample.with_limit "-5" Sample.list_request)
     = Some (JS.Fin 1)
  /\ effective_limit Sample.list_request = Some (JS.Fin 20)
  /\ effective_limit (Sample.with_limit "abc" Sample.list_request)
     = Some (JS.Fin 20).
Proof. repeat split; vm_compute; reflexivity. Qed.

End limit_claims.

(** ** Theorems: the health endpoint *)

Section health_claims.
Import Express Server.

(** A request that is no preflight goes on to the limiter and the
    routes, whatever the CORS decision. *)
Lemma from_cors_not_preflight (origins : list string) (now : Z) (req : request)
    (s : server) :
  is_options (req_method req) = false ->
  from_cors origins now req s
  = behind_cors (Cors.middleware (Cors.server_options origins) req) now req s.
Proof.
  intros Hm. unfold from_cors. rewrite middleware_grant.
  destruct (snd (Cors.origin_callback origins (req_origin req)));
    [rewrite Hm|]; reflexivity.
Qed.

Lemma app_not_preflight (origins : list string) (now : Z) (req : request)
    (s : server) :
  req_body_error req = None ->
  is_options (req_method req) = false ->
  app origins now req s
  = behind_cors (Cors.middleware (Cors.server_options origins) req) now req s.
Proof.
  intros Hacc Hm. rewrite app_accepted by exact Hacc.
  apply from_cors_not_preflight. exact Hm.
Qed.

Lemma routed_cases (pattern path : string) :
  routed pattern path = true ->
  lower path = pattern \/ lower path = (pattern ++ "/")%string.
Proof.
  unfold routed. intros H. apply orb_true_iff in H.
  destruct H as [H|H]; apply String.eqb_eq in H; auto.
Qed.

Lemma route_health (req : request) :
  is_get (req_method req) = true ->
  routed "/api/health" (req_path req) = true ->
  route req = Some get_health.
Proof.
  intros Hm Hp. unfold route. rewrite Hm, Hp.
  assert (routed "/api/queries" (req_path req) = false) as ->.
  { unfold routed. destruct (routed_cases _ _ Hp) as [-> | ->]; reflexivity. }
  rewrite !andb_false_r. reflexivity.
Qed.

Lemma health_is_mounted (path : string) :
  routed "/api/health" path = true -> mounted "/api/" path = true.
Proof.
  intros Hp. unfold mounted.
  destruct (routed_cases _ _ Hp) as [-> | ->]; reflexivity.
Qed.

(** C9, as amended: the health handler answers 200 [{ok:true}] to every
    request that reaches it; it sends no statement to the pool and leaves
    the store as it is, and its answer is the same whatever the request
    and the state of the store.  Through the whole application, a health
    request reaches the handler when the JSON body parser does not refuse
    its body and the rate limiter lets it through; a health request that
    the limiter rejects is answered 429, and one whose body the parser
    refuses gets the parser's error; neither touches the store. *)
Theorem health_always_ok (req : request) (db : Pg.db) :
  reply (get_health req db)
  = {| status := 200; content := json (VObj [("ok", VBool true)]) |}
  /\ effects (get_health req db) = []
  /\ pool_after (get_health req db) = db
  /\ (forall req' db', reply (get_health req' db') = reply (get_health req db))
  /\ (forall origins now s,
        is_get (req_method req) = true ->
        routed "/api/health" (req_path req) = true ->
        let verdict :=
          fst (RateLimit.middleware RateLimit.server_options now req (limiter s)) in
        (req_body_error req = None ->
         RateLimit.rejected verdict = false ->
         answer (app origins now req s)
         = Some {| status := 200; content := json (VObj [("ok", VBool true)]) |})
        /\ (req_body_error req = None ->
            RateLimit.rejected verdict = true ->
            answer (app origins now req s)
            = Some {| status := 429; content := too_many_requests |})
        /\ (forall e, req_body_error req = Some e ->
              answer (app origins now req s)
              = Some {| status :=
                          (if (400 <=? error_status e) && (error_status e <? 600)
                           then error_status e else 500);
                        content := refused_body e |})
        /\ log (app origins now req s) = []
        /\ pool (after (app origins now req s)) = pool s).
Proof.
  repeat (split; [reflexivity|]).
  intros origins now s Hm Hp verdict. subst verdict.
  destruct (req_body_error req) as [e|] eqn:Hacc.
  - rewrite (app_refused _ _ _ _ e Hacc). cbn [answer log after].
    repeat split; try discriminate.
    intros e' E. assert (e' = e) as -> by congruence. reflexivity.
  - rewrite app_not_preflight by (try exact Hacc; destruct (req_method req); done).
    unfold behind_cors, dispatch.
    rewrite (health_is_mounted _ Hp), (route_health _ Hm Hp).
    destruct (RateLimit.middleware _ _ _ _) as [r lim]. cbn [fst].
    destruct (RateLimit.rejected r); simpl.
    + split; [intros _ E; discriminate E|]. split; [reflexivity|].
      split; [intros e E; discriminate E|]. split; reflexivity.
    + split; [reflexivity|]. split; [intros _ E; discriminate E|].
      split; [intros e E; discriminate E|]. split; reflexivity.
Qed.

Lemma health_always_ok_witness :
  answer (app ["https://a.com"] 0 Sample.health_request
              {| pool := Sample.broken_db; limiter := ∅ |})
  = Some {| status := 200; content := json (VObj [("ok", VBool true)]) |}.
Proof.
  refine (proj1 (proj2 (proj2 (proj2 (proj2
           (health_always_ok Sample.health_request Sample.broken_db))))
           ["https://a.com"] 0 {| pool := Sample.broken_db; limiter := ∅ |}
           eq_refl eq_refl) eq_refl _).
  vm_compute. reflexivity.
Defined.

(** C9 as written fails for the sixty-first of a burst of health requests
    from one address: it is a request to the health route, and the answer
    is 429, not 200.  It also fails for a health request whose body the
    JSON parser refuses: the answer is the parser's 400. *)
Lemma health_request_over_quota :
  let results := Spec.serve [] Sample.health_burst Sample.fresh_server in
  (option_map answer (nth_error results 60%nat)
   = Some (Some {| status := 429; content := too_many_requests |})
   /\ option_map snd (nth_error Sample.health_burst 60%nat)
      = Some Sample.health_request
   /\ is_get (req_method Sample.health_request) = true
   /\ routed "/api/health" (req_path Sample.health_request) = true
   /\ req_body_error Sample.health_request = None)
  /\ (answer (app [] 0 (Sample.refused Sample.malformed Sample.health_request)
                 Sample.fresh_server)
      = Some {| status := 400; content := refused_body Sample.malformed |}
      /\ routed "/api/health"
           (req_path (Sample.refused Sample.malformed Sample.health_request))
         = true).
Proof. vm_compute. repeat split. Qed.

End health_claims.

(** ** Theorems: start-up *)

Section startup_claims.
Import Express Server Spec.

Lemma attempt_succ (p : port) (i : nat) :
  attempt p (S i) = next_port (attempt p i).
Proof.
  revert p. induction i as [|i IH]; intros p; [reflexivity|].
  change (attempt p (S (S i))) with (attempt (next_port p) (S i)).
  rewrite IH. reflexivity.
Qed.

Lemma busy_trace_quiet (p : port) (k : nat) (status : Z) :
  ~ In (process_exit status) (busy_trace p k).
Proof.
  revert p. induction k as [|k IH]; intros p; simpl; [tauto|].
  intros [H | [H | H]]; try discriminate. exact (IH _ H).
Qed.

(** While the ports are taken, [startServer] moves on to the next. *)
Lemma startServer_skips_busy (os : port -> listen_event) (k fuel : nat)
    (p : port) :
  (forall i, (i < k)%nat -> os (attempt p i) = error_event "EADDRINUSE") ->
  startServer (k + fuel) os p
  = match startServer fuel os (attempt p k) with
    | Some (bound, fx) => Some (bound, busy_trace p k ++ fx)
    | None => None
    end.
Proof.
  revert p. induction k as [|k IH]; intros p Hbusy.
  - simpl. destruct (startServer fuel os p) as [[b fx]|]; reflexivity.
  - change (S k + fuel)%nat with (S (k + fuel)).
    assert (os p = error_event "EADDRINUSE") as H0.
    { apply (Hbusy 0%nat). lia. }
    cbn [startServer]. rewrite H0.
    change ("EADDRINUSE" =? "EADDRINUSE")%string with true.
    cbv iota. rewrite IH.
    + cbn [attempt busy_trace].
      destruct (startServer fuel os (attempt (next_port p) k)) as [[b fx]|];
        reflexivity.
    + intros i Hi. apply (Hbusy (S i)). lia.
Qed.

(** C7, as amended: the first bind attempt is on the configured port,
    8080 when [PORT] is unset or empty; each attempt that fails because
    the port is in use is followed by one on the next higher number,
    however many times, until a port is free, and the server then
    listens there; an attempt that fails with any other error is logged
    and no further attempt is made, and [server.js] does not end the
    process on its own. *)
Theorem startServer_probes_upwards (os : port -> listen_event)
    (env_port : option string) (k fuel : nat) :
  (k < fuel)%nat ->
  (forall i, (i < k)%nat ->
     os (attempt (defaultPort env_port) i) = error_event "EADDRINUSE") ->
  let p := defaultPort env_port in
  (env_port = None \/ env_port = Some EmptyString ->
     p = port_number (JS.Fin 8080))
  /\ (forall s, env_port = Some s -> s <> EmptyString -> p = port_string s)
  /\ (forall i, port_to_number (attempt p (S i))
                = JS.succ_number (port_to_number (attempt p i)))
  /\ (os (attempt p k) = listening ->
        startServer fuel os p
        = Some (Some (attempt p k),
                busy_trace p k
                ++ [listen (attempt p k); console_log_listening (attempt p k)]))
  /\ (forall code, code <> "EADDRINUSE"%string ->
        os (attempt p k) = error_event code ->
        startServer fuel os p
        = Some (None,
                busy_trace p k
                ++ [listen (attempt p k); console_error_server code])
        /\ forall status,
             ~ In (process_exit status)
                  (busy_trace p k
                   ++ [listen (attempt p k); console_error_server code])).
Proof.
  intros Hfuel Hbusy p.
  split; [intros [-> | ->]; reflexivity|].
  split; [intros s -> Hs; destruct s; [congruence | reflexivity]|].
  split; [intros i; rewrite attempt_succ; reflexivity|].
  assert (exists n, fuel = (k + S n)%nat) as [n ->].
  { exists (fuel - S k)%nat. lia. }
  rewrite (startServer_skips_busy os k (S n) p Hbusy).
  split.
  - intros Hfree. cbn [startServer]. rewrite Hfree. reflexivity.
  - intros code Hcode Herr. cbn [startServer]. rewrite Herr.
    apply String.eqb_neq in Hcode. rewrite Hcode. split; [reflexivity|].
    intros status Hin. apply in_app_or in Hin.
    destruct Hin as [Hin | [Hin | [Hin | []]]]; try discriminate.
    exact (busy_trace_quiet _ _ _ Hin).
Qed.

Lemma startServer_probes_upwards_witness :
  startServer 5 Sample.two_ports_taken (defaultPort None)
  = Some (Some (attempt (defaultPort None) 2),
          busy_trace (defaultPort None) 2
          ++ [listen (attempt (defaultPort None) 2);
              console_log_listening (attempt (defaultPort None) 2)]).
Proof.
  refine (proj1 (proj2 (proj2 (proj2
            (startServer_probes_upwards Sample.two_ports_taken None 2 5 _ _)))) _).
  - lia.
  - intros [|[|i]] Hi; [reflexivity | reflexivity | lia].
  - reflexivity.
Defined.

(** C7 as written fails on a bind error other than "port in use": the
    error is logged and nothing else happens; the run holds no step
    that ends the process. *)
Lemma bind_error_does_not_abort :
  startServer 1 Sample.no_permission (defaultPort None)
  = Some (None, [listen (port_number (JS.Fin 8080));
                 console_error_server "EACCES"])
  /\ (forall fuel bound fx,
        startServer fuel Sample.no_permission (defaultPort None)
        = Some (bound, fx) ->
        forall status, ~ In (process_exit status) fx).
Proof.
  split; [reflexivity|].
  intros [|fuel] bound fx H; [discriminate|].
  cbn in H. inversion H; subst.
  intros status [E | [E | []]]; discriminate.
Qed.

End startup_claims.

(** ** Facts about the schema *)

Section schema_facts.
Import Express Server Spec Zod.

Lemma parse_text (path : list string) (t : value) :
  parse (z_string [min 1; max 2000]) path t
  = (match text_issue t with
     | Some why => [{| issue_path := path; issue_why := why |}]
     | None => []
     end, t).
Proof.
  destruct t; try reflexivity.
  cbn [parse flat_map run_check text_issue].
  destruct (Z.of_nat (String.length s) <? 1) eqn:Hlo.
  - assert ((2000 <? Z.of_nat (String.length s)) = false) as ->; [lia|].
    reflexivity.
  - destruct (2000 <? Z.of_nat (String.length s)); reflexivity.
Qed.

Lemma parse_record_any (path : list string) (m : list (string * value)) :
  parse (z_record z_any) path (VObj m) = ([], stored_meta m).
Proof.
  cbn [parse]. unfold stored_meta. f_equal.
  - induction m as [|kv m IH]; [reflexivity | exact IH].
  - f_equal. induction m as [|[k v] m IH]; [reflexivity|].
    cbn [map List.filter fst snd]. unfold kept at 1.
    replace (match v with VUndefined => true | _ => true end) with true
      by (destruct v; reflexivity).
    rewrite andb_true_r.
    destruct (negb (String.eqb k "__proto__")); cbn [map fst snd];
      rewrite IH; reflexivity.
Qed.

Lemma parse_meta (path : list string) (m : value) :
  meta_issue m = None ->
  parse (z_optional (z_record z_any)) path m
  = ([], match m with VObj fs => stored_meta fs | _ => VUndefined end).
Proof.
  destruct m; try discriminate; intros _; [reflexivity|].
  change (parse (z_optional (z_record z_any)) path (VObj fields))
    with (parse (z_record z_any) path (VObj fields)).
  apply parse_record_any.
Qed.

Lemma parse_meta_wrong (path : list string) (m : value) (why : issue_code) :
  meta_issue m = Some why ->
  fst (parse (z_optional (z_record z_any)) path m)
  = [{| issue_path := path; issue_why := why |}].
Proof.
  destruct m; try discriminate; intros H; inversion H; reflexivity.
Qed.

(** [QuerySchema] on an object, by its two fields. *)
Lemma parse_query_object (fields : list (string * value)) :
  parse QuerySchema [] (VObj fields)
  = let rt := parse (z_string [min 1; max 2000]) ["text"] (prop "text" fields) in
    let rm := parse (z_optional (z_record z_any)) ["meta"] (prop "meta" fields) in
    (fst rt ++ fst rm ++ [],
     VObj (map (fun r => (fst (fst r), snd (snd r)))
             (List.filter
                (fun r => kept (fst (fst r)) (snd (fst r)) (snd (snd r)))
                [("text", has_key "text" fields, rt);
                 ("meta", has_key "meta" fields, rm)]))).
Proof. reflexivity. Qed.

(** The issues [QuerySchema] raises on an object. *)
Lemma parse_query_issues (fields : list (string * value)) :
  fst (parse QuerySchema [] (VObj fields))
  = field_issue "text" (text_issue (prop "text" fields))
    ++ field_issue "meta" (meta_issue (prop "meta" fields)).
Proof.
  rewrite parse_query_object. cbv zeta. cbn [fst].
  rewrite parse_text, app_nil_r. cbn [fst]. f_equal.
  destruct (meta_issue (prop "meta" fields)) as [why|] eqn:Hm.
  - rewrite (parse_meta_wrong _ _ _ Hm). reflexivity.
  - rewrite (parse_meta _ _ Hm). reflexivity.
Qed.

(** The data [QuerySchema] returns for an accepted object. *)
Lemma parse_query_data (fields : list (string * value)) (text : string) :
  prop "text" fields = VStr text ->
  meta_issue (prop "meta" fields) = None ->
  get "text" (snd (parse QuerySchema [] (VObj fields))) = VStr text
  /\ get "meta" (snd (parse QuerySchema [] (VObj fields)))
     = match prop "meta" fields with
       | VObj m => stored_meta m
       | _ => VUndefined
       end.
Proof.
  intros Ht Hm. rewrite parse_query_object. cbv zeta.
  rewrite parse_text, (parse_meta _ _ Hm), Ht.
  cbn [snd fst List.filter kept].
  change (negb ("text" =? "__proto__")%string) with true.
  change (negb ("meta" =? "__proto__")%string) with true.
  cbn [andb].
  destruct (prop "meta" fields) eqn:Ep; try discriminate.
  - destruct (has_key "meta" fields); split; reflexivity.
  - split; reflexivity.
Qed.

End schema_facts.

(** ** Theorems: the submission endpoint *)

Section create_claims.
Import Express Server Spec Zod.

Lemma safeParse_object (fields : list (string * value)) :
  safeParse QuerySchema (VObj fields)
  = match text_issue (prop "text" fields), meta_issue (prop "meta" fields) with
    | None, None => inl (snd (parse QuerySchema [] (VObj fields)))
    | w1, w2 => inr (field_issue "text" w1 ++ field_issue "meta" w2)
    end.
Proof.
  unfold safeParse.
  pose proof (parse_query_issues fields) as Hi.
  destruct (parse QuerySchema [] (VObj fields)) as [issues data].
  cbn [fst snd] in *. subst issues.
  destruct (text_issue (prop "text" fields)),
           (meta_issue (prop "meta" fields)); reflexivity.
Qed.

Lemma safeParse_not_object (b : value) :
  (forall fields, b <> VObj fields) ->
  safeParse QuerySchema b
  = inr [{| issue_path := [];
            issue_why := invalid_type TObject (getParsedType b) |}].
Proof.
  intros Hb. destruct b; try reflexivity. now destruct (Hb fields).
Qed.

Lemma flatten_fields (w1 w2 : option issue_code) :
  flatten (field_issue "text" w1 ++ field_issue "meta" w2)
  = {| formErrors := [];
       fieldErrors := described "text" w1 ++ described "meta" w2 |}.
Proof. destruct w1, w2; reflexivity. Qed.

(** The cases the specification lists are the bodies the schema
    refuses. *)
Lemma invalid_submission_iff (b : value) :
  invalid_submission b
  <-> match b with
      | VObj fields =>
          text_issue (prop "text" fields) <> None
          \/ meta_issue (prop "meta" fields) <> None
      | _ => True
      end.
Proof.
  split.
  - intros H. destruct b; try exact I.
    destruct H as [H | H | H | s H Hlen | H1 H2]; cbn [get] in *.
    + left. rewrite H. discriminate.
    + left. rewrite H. discriminate.
    + left. destruct (prop "text" fields); try discriminate.
      now destruct (H s).
    + left. rewrite H. cbn [text_issue].
      destruct (Z.of_nat (String.length s) <? 1); [discriminate|].
      assert ((2000 <? Z.of_nat (String.length s)) = true) as -> by lia.
      discriminate.
    + right. destruct (prop "meta" fields); try discriminate.
      * now destruct H1.
      * now destruct (H2 fields0).
  - destruct b; try (intros _; apply text_missing; reflexivity).
    cbn [get]. intros [H | H].
    + destruct (prop "text" fields) eqn:Et;
        try (apply text_not_a_string; cbn [get]; rewrite Et; discriminate).
      cbn [text_issue] in H.
      destruct (Z.of_nat (String.length s) <? 1) eqn:Hlo.
      { apply text_empty. cbn [get]. rewrite Et.
        destruct s as [|c s]; [reflexivity|]. apply Z.ltb_lt in Hlo.
        change (String.length (String c s)) with (S (String.length s)) in Hlo.
        lia. }
      destruct (2000 <? Z.of_nat (String.length s)) eqn:Hhi;
        [|congruence].
      apply (text_too_long _ s); [exact Et | lia].
    + apply meta_not_an_object; cbn [get];
        destruct (prop "meta" fields); try discriminate;
        now destruct H.
Qed.

Lemma client_address_well_formed (req : request) :
  addresses_well_formed req ->
  client_address req
  = match req_ips req with
    | a :: _ => Some a
    | [] => req_ip req
    end.
Proof.
  intros [Hips Hip]. unfold client_address.
  destruct (req_ips req) as [|a rest].
  - destruct (req_ip req) as [[|c a]|]; try reflexivity. congruence.
  - inversion Hips as [|? ? Ha _]. destruct a; [congruence | reflexivity].
Qed.

(** C2, as amended: for every valid submission (text a string of 1 to
    2000 characters, meta omitted or an object) whose insert the store
    carries out, the create endpoint sends one statement, which adds one
    row, and answers 201 with [{ok:true, id, createdAt}] of that row; the
    row's address is the first of the forwarded addresses when there is
    one and the peer address otherwise, and its meta is the empty
    object when meta was omitted, and otherwise the JSON text of the
    submitted object. *)
Theorem create_stores_valid_submission (req : request) (db : Pg.db)
    (fields : list (string * value)) (text : string) :
  req_body req = VObj fields ->
  prop "text" fields = VStr text ->
  1 <= Z.of_nat (String.length text) <= 2000 ->
  (prop "meta" fields = VUndefined \/ exists m, prop "meta" fields = VObj m) ->
  addresses_well_formed req ->
  Pg.refuses db
    (Pg.insert_query_log text (client_address req)
       (stringify (meta_document (prop "meta" fields)))) = None ->
  exists r : Pg.row,
    Pg.table (pool_after (post_queries req db)) = Pg.table db ++ [r]
    /\ effects (post_queries req db)
       = [ran_query (Pg.insert_query_log text (Pg.row_ip r) (Pg.row_meta r))]
    /\ reply (post_queries req db)
       = {| status := 201;
            content :=
              json (VObj [("ok", VBool true);
                          ("id", VNum (JS.Fin (inject_Z (Pg.row_id r))));
                          ("createdAt", VDate (Pg.row_created_at r))]) |}
    /\ Pg.row_text r = text
    /\ Pg.row_id r = Pg.next_id db
    /\ Pg.row_created_at r = Pg.clock db
    /\ Pg.row_ip r = match req_ips req with
                     | a :: _ => Some a
                     | [] => req_ip req
                     end
    /\ (prop "meta" fields = VUndefined -> Pg.row_meta r = Some (JObj []))
    /\ (forall m, prop "meta" fields = VObj m ->
          Pg.row_meta r = stringify (stored_meta m)).
Proof.
  intros Hbody Htext Hlen Hmeta Haddr Hok.
  assert (text_issue (prop "text" fields) = None) as Hti.
  { rewrite Htext. cbn [text_issue].
    assert ((Z.of_nat (String.length text) <? 1) = false) as -> by lia.
    assert ((2000 <? Z.of_nat (String.length text)) = false) as -> by lia.
    reflexivity. }
  assert (meta_issue (prop "meta" fields) = None) as Hmi.
  { destruct Hmeta as [-> | [m ->]]; reflexivity. }
  destruct (parse_query_data fields text Htext Hmi) as [Hgt Hgm].
  assert (Hstored :
    (if truthy (get "meta" (snd (parse QuerySchema [] (VObj fields))))
     then get "meta" (snd (parse QuerySchema [] (VObj fields)))
     else VObj [])
    = meta_document (prop "meta" fields)).
  { rewrite Hgm. destruct Hmeta as [-> | [m ->]]; reflexivity. }
  unfold post_queries.
  rewrite Hbody, safeParse_object, Hti, Hmi. cbv zeta.
  rewrite Hgt, Hstored. cbn [text_of].
  unfold Pg.query. rewrite Hok. cbn [reply effects pool_after Pg.table].
  eexists. split; [reflexivity|].
  cbn [Pg.row_ip Pg.row_meta Pg.row_text Pg.row_id Pg.row_created_at
       Pg.returned get prop].
  repeat split; try reflexivity.
  - apply client_address_well_formed, Haddr.
  - intros ->. reflexivity.
  - intros m ->. reflexivity.
Qed.

Lemma create_stores_valid_submission_witness :
  exists r : Pg.row,
    Pg.table (pool_after (post_queries
                (Sample.forwarded_for "203.0.113.7"
                   (Sample.create_request Sample.hello))
                Sample.empty_db)) = [r]
    /\ Pg.row_ip r = Some "203.0.113.7"
    /\ Pg.row_meta r = Some (JObj [("k", JNum 1)])
    /\ reply (post_queries
                (Sample.forwarded_for "203.0.113.7"
                   (Sample.create_request Sample.hello))
                Sample.empty_db)
       = {| status := 201;
            content := json (VObj [("ok", VBool true); ("id", VNum (JS.Fin 1));
                                   ("createdAt", VDate 1000)]) |}.
Proof.
  destruct (create_stores_valid_submission
              (Sample.forwarded_for "203.0.113.7"
                 (Sample.create_request Sample.hello))
              Sample.empty_db
              [("text", VStr "hello"); ("meta", VObj [("k", VNum (JS.Fin 1))])]
              "hello" eq_refl eq_refl)
    as (r & Htable & _ & Hreply & _ & Hid & Hat & Hip & _ & Hmeta).
  - cbn. lia.
  - right. eexists. reflexivity.
  - split; [repeat constructor; discriminate | discriminate].
  - reflexivity.
  - exists r. split; [exact Htable|]. split; [exact Hip|].
    split; [exact (Hmeta _ eq_refl)|].
    rewrite Hreply, Hid, Hat. reflexivity.
Defined.

(** C2 as written fails for a valid submission whose insert the store
    refuses: the answer is 500 and no row is stored. *)
Lemma valid_submission_not_stored :
  let req := Sample.create_request Sample.hello in
  req_body req
  = VObj [("text", VStr "hello"); ("meta", VObj [("k", VNum (JS.Fin 1))])]
  /\ reply (post_queries req Sample.broken_db)
     = {| status := 500;
          content := json (VObj [("error", VStr "DB insert failed")]) |}
  /\ Pg.table (pool_after (post_queries req Sample.broken_db))
     = Pg.table Sample.broken_db.
Proof. repeat split. Qed.

(** What [JSON.stringify] makes of values that JSON cannot write. *)
Example stringify_not_finite :
  stringify (VObj [("k", VNum JS.PosInf); ("u", VUndefined);
                   ("l", VArr [VUndefined; VNum JS.NaN; VNum (JS.Fin 2)])])
  = Some (JObj [("k", JNull); ("l", JArr [JNull; JNull; JNum 2])]).
Proof. reflexivity. Qed.

Lemma safeParse_rejects (b : value) :
  invalid_submission b ->
  exists issues,
    safeParse QuerySchema b = inr issues
    /\ flatten issues = expected_details b.
Proof.
  intros H. apply invalid_submission_iff in H.
  destruct b;
    try (eexists; split; [apply safeParse_not_object; discriminate
                         | reflexivity]).
  rewrite safeParse_object. cbn [expected_details].
  destruct (text_issue (prop "text" fields)) as [w1|] eqn:H1;
    destruct (meta_issue (prop "meta" fields)) as [w2|] eqn:H2;
    try (eexists; split; [reflexivity | apply flatten_fields]).
  destruct H as [H | H]; now destruct H.
Qed.

(** C3: for every submission whose body fails validation (text
    missing, empty, not a string or longer than 2000 characters, or
    meta present but not an object), the create endpoint answers 400
    with a description that names each failing field with its reason
    (and the body as a whole when it is not an object); no statement is
    sent and the store is unchanged. *)
Theorem create_rejects_invalid_submission (req : request) (db : Pg.db) :
  invalid_submission (req_body req) ->
  reply (post_queries req db)
  = {| status := 400;
       content := invalid_payload (expected_details (req_body req)) |}
  /\ (formErrors (expected_details (req_body req)) <> []
      \/ fieldErrors (expected_details (req_body req)) <> [])
  /\ (forall fields, req_body req = VObj fields ->
        (forall why, text_issue (prop "text" fields) = Some why
                     <-> In ("text", [why])
                            (fieldErrors (expected_details (req_body req))))
        /\ (forall why, meta_issue (prop "meta" fields) = Some why
                        <-> In ("meta", [why])
                               (fieldErrors (expected_details (req_body req)))))
  /\ effects (post_queries req db) = []
  /\ pool_after (post_queries req db) = db
  /\ Pg.table (pool_after (post_queries req db)) = Pg.table db.
Proof.
  intros Hbad.
  destruct (safeParse_rejects _ Hbad) as (issues & Hparse & Hflat).
  unfold post_queries. rewrite Hparse, Hflat. cbn [reply effects pool_after].
  split; [reflexivity|]. split.
  { apply invalid_submission_iff in Hbad.
    destruct (req_body req); try (left; discriminate).
    right. cbn [expected_details fieldErrors].
    destruct Hbad as [H | H].
    - destruct (text_issue (prop "text" fields)); [discriminate | congruence].
    - destruct (text_issue (prop "text" fields)); [discriminate|].
      destruct (meta_issue (prop "meta" fields)); [discriminate | congruence]. }
  split; [|repeat split].
  intros fields ->. cbn [expected_details fieldErrors].
  split; intros why; rewrite in_app_iff;
    destruct (text_issue (prop "text" fields)) as [w1|];
    destruct (meta_issue (prop "meta" fields)) as [w2|];
    cbn [described In]; split;
    try (intros E; inversion E; subst; tauto);
    try (intros [[E | []] | [E | []]]; congruence);
    try (intros [[] | [E | []]]; congruence);
    try (intros [[E | []] | []]; congruence);
    try (intros [[] | []]).
Qed.

Lemma create_rejects_invalid_submission_witness :
  reply (post_queries
           (Sample.create_request
              (VObj [("text", VStr ""); ("meta", VArr [])]))
           Sample.empty_db)
  = {| status := 400;
       content :=
         invalid_payload
           {| formErrors := [];
              fieldErrors :=
                [("text", [too_small 1]);
                 ("meta", [invalid_type TObject TArray])] |} |}.
Proof.
  refine (proj1 (create_rejects_invalid_submission
                   (Sample.create_request
                      (VObj [("text", VStr ""); ("meta", VArr [])]))
                   Sample.empty_db _)).
  apply text_empty. reflexivity.
Defined.

End create_claims.

(** ** Theorems: storage failures *)

Section storage_claims.
Import Express Server Spec.

Lemma failed_query_changes_nothing (db : Pg.db) (stmt : Pg.statement)
    (e : Pg.error) :
  fst (Pg.query db stmt) = inr e -> Pg.query db stmt = (inr e, db).
Proof.
  unfold Pg.query.
  destruct (Pg.refuses db stmt) as [e'|]; [cbn; congruence|].
  destruct stmt as [text ip meta | limit]; [discriminate|].
  destruct (Pg.row_count limit); [discriminate | cbn; congruence].
Qed.

Lemma insert_returns_a_row (db : Pg.db) (text : string) (ip : option string)
    (meta : option json_text) (db' : Pg.db) :
  Pg.query db (Pg.insert_query_log text ip meta) = (inl [], db') -> False.
Proof.
  unfold Pg.query.
  destruct (Pg.refuses db _); discriminate.
Qed.

(** C8: when the statement of a create or listing request fails in the
    store, the endpoint answers 500 with a fixed body that carries
    nothing of the failure, the failure is written to the error log,
    and the statement was sent once and is not sent again; the store is
    as it was. *)
Theorem storage_failure_is_opaque (req : request) (db : Pg.db)
    (stmt : Pg.statement) (e : Pg.error) :
  fst (Pg.query db stmt) = inr e ->
  (In (ran_query stmt) (effects (post_queries req db)) ->
     reply (post_queries req db)
     = {| status := 500;
          content := json (VObj [("error", VStr "DB insert failed")]) |}
     /\ effects (post_queries req db) = [ran_query stmt; console_error e]
     /\ pool_after (post_queries req db) = db)
  /\ (In (ran_query stmt) (effects (get_queries req db)) ->
        reply (get_queries req db)
        = {| status := 500;
             content := json (VObj [("error", VStr "DB select failed")]) |}
        /\ effects (get_queries req db) = [ran_query stmt; console_error e]
        /\ pool_after (get_queries req db) = db).
Proof.
  intros Hfail. apply failed_query_changes_nothing in Hfail. split.
  - unfold post_queries.
    destruct (Zod.safeParse QuerySchema (req_body req)) as [data|issues];
      [|intros []].
    cbv zeta.
    match goal with
    | |- context [Pg.query db ?s0] =>
        destruct (Pg.query db s0) as [[[|first rest]|e0] db0] eqn:Hq
    end; cbn [effects reply pool_after];
      intros [E | H]; try (inversion E; subst; clear E);
      try (destruct H as [H | []]; discriminate); try destruct H.
    + rewrite Hfail in Hq. discriminate.
    + rewrite Hfail in Hq. discriminate.
    + rewrite Hfail in Hq. inversion Hq; subst. auto.
  - unfold get_queries.
    destruct (effective_limit req) as [limit|]; [|intros []].
    cbv zeta.
    destruct (Pg.query db (Pg.select_recent limit))
      as [[rows|e0] db0] eqn:Hq; cbn [effects reply pool_after];
      intros [E | H]; try (inversion E; subst; clear E);
      try (destruct H as [H | []]; discriminate); try destruct H.
    + rewrite Hfail in Hq. discriminate.
    + rewrite Hfail in Hq. inversion Hq; subst. auto.
Qed.

Lemma storage_failure_is_opaque_witness :
  reply (post_queries (Sample.create_request Sample.hello) Sample.broken_db)
  = {| status := 500;
       content := json (VObj [("error", VStr "DB insert failed")]) |}
  /\ reply (get_queries Sample.list_request Sample.broken_db)
     = {| status := 500;
          content := json (VObj [("error", VStr "DB select failed")]) |}
  /\ effects (get_queries Sample.list_request Sample.broken_db)
     = [ran_query (Pg.select_recent (JS.Fin 20));
        console_error (Pg.db_error "ECONNREFUSED")].
Proof.
  split; [|split].
  - refine (proj1 (proj1 (storage_failure_is_opaque
              (Sample.create_request Sample.hello) Sample.broken_db
              (Pg.insert_query_log "hello" (Some "10.0.0.1")
                 (Some (JObj [("k", JNum 1)])))
              (Pg.db_error "ECONNREFUSED") eq_refl) _)).
    left. reflexivity.
  - refine (proj1 (proj2 (storage_failure_is_opaque
              Sample.list_request Sample.broken_db
              (Pg.select_recent (JS.Fin 20))
              (Pg.db_error "ECONNREFUSED") eq_refl) _)).
    left. reflexivity.
  - refine (proj1 (proj2 (proj2 (storage_failure_is_opaque
              Sample.list_request Sample.broken_db
              (Pg.select_recent (JS.Fin 20))
              (Pg.db_error "ECONNREFUSED") eq_refl) _))).
    left. reflexivity.
Defined.

End storage_claims.

(** ** Theorems: the listing endpoint *)

Section listing_claims.
Import Express Server Spec.

#[local] Instance newer_first_transitive : Transitive Pg.newer_first.
Proof. intros a b c. unfold Pg.newer_first. lia. Qed.

#[local] Instance newer_first_total : Total Pg.newer_first.
Proof. intros a b. unfold Pg.newer_first. lia. Qed.

(** A limit the store accepts as a row count is the integer it stands
    for. *)
Lemma row_count_value (q : Q) (n : nat) :
  Pg.row_count (JS.Fin q) = Some n -> (q == inject_Z (Z.of_nat n))%Q.
Proof.
  cbn [Pg.row_count]. pose proof (Qred_correct q) as Hr.
  destruct (Qred q) as [num den]. cbn [Qnum Qden].
  destruct (Z.pos den =? 1) eqn:Hden; [|discriminate].
  destruct (0 <=? num) eqn:Hnum; [|discriminate].
  cbn [andb]. intros E. inversion E; subst n. clear E.
  rewrite <- Hr. apply Z.eqb_eq in Hden. apply Z.leb_le in Hnum.
  unfold Qeq, inject_Z. cbn [Qnum Qden]. rewrite Hden, Z2Nat.id by exact Hnum.
  reflexivity.
Qed.

Lemma effective_limit_count (req : request) (limit : JS.number) (n : nat) :
  effective_limit req = Some limit ->
  Pg.row_count limit = Some n ->
  (1 <= n <= 100)%nat
  /\ exists q, limit = JS.Fin q /\ (q == inject_Z (Z.of_nat n))%Q.
Proof.
  intros Hl Hn.
  destruct (effective_limit_range req limit Hl) as (q & -> & Hlo & Hhi).
  pose proof (row_count_value q n Hn) as Hq. split; [|eauto].
  rewrite Hq in Hlo, Hhi. unfold Qle, inject_Z in Hlo, Hhi.
  cbn [Qnum Qden] in Hlo, Hhi. lia.
Qed.

Lemma listed_fields (r : Pg.row) :
  exists id text ip created_at,
    Pg.listed r = VObj [("id", id); ("text", text); ("ip", ip);
                        ("created_at", created_at)].
Proof. unfold Pg.listed. eauto. Qed.

(** C4: a successful listing answers [{ok:true, items}]; the items are
    rows of the table, the most recent ones, in descending order of
    [created_at], no more than the effective limit; each item has the
    fields id, text, ip and created_at of its row and no other, so no
    meta. *)
Theorem listing_returns_most_recent (req : request) (db : Pg.db) :
  status (reply (get_queries req db)) = 200 ->
  exists (q : Q) (n : nat) (rows rest : list Pg.row),
    effective_limit req = Some (JS.Fin q)
    /\ (q == inject_Z (Z.of_nat n))%Q
    /\ (1 <= n <= 100)%nat
    /\ reply (get_queries req db)
       = {| status := 200;
            content :=
              json (VObj
                [("ok", VBool true);
                 ("items",
                  VArr (map (fun r =>
                               VObj [("id", VNum (JS.Fin (inject_Z (Pg.row_id r))));
                                     ("text", VStr (Pg.row_text r));
                                     ("ip", match Pg.row_ip r with
                                            | Some a => VStr a
                                            | None => VNull
                                            end);
                                     ("created_at", VDate (Pg.row_created_at r))])
                            rows))]) |}
    /\ length rows = Nat.min n (length (Pg.table db))
    /\ StronglySorted Pg.newer_first rows
    /\ Permutation (rows ++ rest) (Pg.table db)
    /\ (forall x y, In x rows -> In y rest ->
          Pg.row_created_at y <= Pg.row_created_at x)
    /\ effects (get_queries req db) = [ran_query (Pg.select_recent (JS.Fin q))]
    /\ pool_after (get_queries req db) = db.
Proof.
  unfold get_queries.
  destruct (effective_limit req) as [limit|] eqn:Hl; [|discriminate].
  cbv zeta. unfold Pg.query.
  destruct (Pg.refuses db (Pg.select_recent limit)); [discriminate|].
  destruct (Pg.row_count limit) as [n|] eqn:Hn; [|discriminate].
  intros _. cbn [reply pool_after effects].
  destruct (effective_limit_count req limit n Hl Hn) as (Hrange & q & -> & Hq).
  set (sorted := merge_sort Pg.newer_first (Pg.table db)).
  assert (StronglySorted Pg.newer_first (take n sorted ++ drop n sorted))
    as Hsorted.
  { rewrite take_drop. apply StronglySorted_merge_sort; apply _. }
  apply StronglySorted_app in Hsorted. destruct Hsorted as (Hcross & Htake & _).
  exists q, n, (take n sorted), (drop n sorted).
  split; [reflexivity|]. split; [exact Hq|]. split; [exact Hrange|].
  split; [reflexivity|]. split.
  { rewrite length_take. f_equal. subst sorted.
    apply Permutation_length, merge_sort_Permutation. }
  split; [exact Htake|]. split.
  { rewrite take_drop. apply merge_sort_Permutation. }
  split; [|split; reflexivity].
  intros x y Hx Hy. apply (Hcross x y); apply list_elem_of_In; assumption.
Qed.

Lemma listing_returns_most_recent_witness :
  exists rows : list Pg.row,
    reply (get_queries (Sample.with_limit "2" Sample.list_request)
             Sample.three_rows)
    = {| status := 200;
         content :=
           json (VObj
             [("ok", VBool true);
              ("items",
               VArr (map (fun r =>
                            VObj [("id", VNum (JS.Fin (inject_Z (Pg.row_id r))));
                                  ("text", VStr (Pg.row_text r));
                                  ("ip", match Pg.row_ip r with
                                         | Some a => VStr a
                                         | None => VNull
                                         end);
                                  ("created_at", VDate (Pg.row_created_at r))])
                         rows))]) |}
    /\ length rows = 2%nat.
Proof.
  destruct (listing_returns_most_recent
              (Sample.with_limit "2" Sample.list_request) Sample.three_rows
              eq_refl)
    as (q & n & rows & rest & Hl & Hq & _ & Hreply & Hlen & _).
  exists rows. split; [exact Hreply|].
  vm_compute in Hl. assert (q = 2%Q) as -> by congruence.
  unfold Qeq, inject_Z in Hq. cbn [Qnum Qden] in Hq.
  assert (n = 2%nat) as -> by lia. exact Hlen.
Defined.

(** The listing of the sample store with [limit=2]: the two newest
    entries, the newer first, without their meta. *)
Example listing_of_three_rows :
  reply (get_queries (Sample.with_limit "2" Sample.list_request)
           Sample.three_rows)
  = {| status := 200;
       content :=
         json (VObj
           [("ok", VBool true);
            ("items",
             VArr [VObj [("id", VNum (JS.Fin 2)); ("text", VStr "second");
                         ("ip", VNull); ("created_at", VDate 30)];
                   VObj [("id", VNum (JS.Fin 3)); ("text", VStr "third");
                         ("ip", VNull); ("created_at", VDate 20)]])]) |}.
Proof. vm_compute. reflexivity. Qed.

(** A limit is rounded to a double before it is clamped: this one is the
    integer 1, and the store accepts it as a row count. *)
Example listing_limit_is_rounded :
  reply (get_queries
           (Sample.with_limit "1.00000000000000000001" Sample.list_request)
           Sample.three_rows)
  = {| status := 200;
       content :=
         json (VObj
           [("ok", VBool true);
            ("items",
             VArr [VObj [("id", VNum (JS.Fin 2)); ("text", VStr "second");
                         ("ip", VNull); ("created_at", VDate 30)]])]) |}.
Proof. vm_compute. reflexivity. Qed.

(** A limit that is not an integer once clamped is refused by the store,
    and the listing fails. *)
Example listing_limit_not_an_integer :
  reply (get_queries (Sample.with_limit "1.5" Sample.list_request)
           Sample.three_rows)
  = {| status := 500;
       content := json (VObj [("error", VStr "DB select failed")]) |}.
Proof. vm_compute. reflexivity. Qed.

(** [?limit[toString]=x]: [Number] throws before the [try] block, and
    the handler sends neither a statement nor an answer. *)
Example listing_limit_throws :
  get_queries
    (Sample.with_query (QObj [("toString", QStr "x")]) Sample.list_request)
    Sample.three_rows
  = {| reply :=
         {| status := 0;
            content :=
              unanswered
                (Pg.type_error "Cannot convert object to primitive value") |};
       pool_after := Sample.three_rows;
       effects := [] |}.
Proof. reflexivity. Qed.

End listing_claims.

(** ** Theorems: the rate limiter *)

Section rate_limit_claims.
Import Express Server Spec.

Lemma post_queries_not_limited (req : request) (db : Pg.db) :
  reply (post_queries req db) <> rate_limited.
Proof.
  unfold post_queries.
  destruct (Zod.safeParse QuerySchema (req_body req)); [|discriminate].
  cbv zeta.
  match goal with
  | |- context [Pg.query db ?s0] =>
      destruct (Pg.query db s0) as [[[|first rest]|e0] db0]
  end; discriminate.
Qed.

Lemma get_queries_not_limited (req : request) (db : Pg.db) :
  reply (get_queries req db) <> rate_limited.
Proof.
  unfold get_queries.
  destruct (effective_limit req) as [limit|]; [|discriminate].
  cbv zeta.
  destruct (Pg.query db _) as [[rows|e0] db0]; discriminate.
Qed.

Lemma dispatch_not_limited (req : request) (db : Pg.db) :
  fst (fst (dispatch req db)) <> Some rate_limited.
Proof.
  unfold dispatch, route.
  destruct (is_post _ && _).
  { cbn. intros E. inversion E as [E']. exact (post_queries_not_limited _ _ E'). }
  destruct (is_get _ && routed "/api/queries" _).
  { cbn. intros E. inversion E as [E']. exact (get_queries_not_limited _ _ E'). }
  destruct (is_get _ && _); discriminate.
Qed.

(** A request the limiter sees is counted, and rejected by it or handed
    on. *)
Lemma app_limiter_seen (origins : list string) (now : Z) (req : request)
    (s : server) :
  reaches_limiter origins req = true ->
  rate (app origins now req s)
  = Some (fst (RateLimit.middleware RateLimit.server_options now req (limiter s)))
  /\ limiter (after (app origins now req s))
     = snd (RateLimit.middleware RateLimit.server_options now req (limiter s))
  /\ (answer (app origins now req s) = Some rate_limited
      <-> RateLimit.rejected
            (fst (RateLimit.middleware RateLimit.server_options now req
                    (limiter s))) = true).
Proof.
  unfold reaches_limiter. intros H.
  destruct (req_body_error req) as [e|] eqn:Hacc; [discriminate|].
  apply andb_true_iff in H.
  destruct H as [Hm Hpre]. apply negb_true_iff in Hpre.
  assert (app origins now req s
          = behind_cors (Cors.middleware (Cors.server_options origins) req)
              now req s) as ->.
  { rewrite app_accepted by exact Hacc. unfold from_cors.
    rewrite middleware_grant.
    destruct (snd (Cors.origin_callback origins (req_origin req)));
      [|reflexivity].
    rewrite andb_true_r in Hpre. rewrite Hpre. reflexivity. }
  unfold behind_cors. rewrite Hm.
  destruct (RateLimit.middleware _ now req (limiter s)) as [rep lim].
  cbn [fst snd].
  destruct (RateLimit.rejected rep) eqn:Hrej.
  - cbn. repeat split; reflexivity.
  - pose proof (dispatch_not_limited req (pool s)) as Hd.
    destruct (dispatch req (pool s)) as [[a fx] p]. cbn in *.
    repeat split; try reflexivity; [congruence | discriminate].
Qed.

(** Any other request leaves the limiter alone and is never answered
    by it. *)
Lemma app_limiter_unseen (origins : list string) (now : Z) (req : request)
    (s : server) :
  reaches_limiter origins req = false ->
  rate (app origins now req s) = None
  /\ limiter (after (app origins now req s)) = limiter s
  /\ answer (app origins now req s) <> Some rate_limited.
Proof.
  unfold reaches_limiter. intros H.
  destruct (req_body_error req) as [e|] eqn:Hacc.
  { rewrite (app_refused _ _ _ _ e Hacc). cbn.
    repeat split; try reflexivity. discriminate. }
  rewrite app_accepted by exact Hacc. unfold from_cors.
  rewrite middleware_grant.
  assert (Hbehind : mounted "/api/" (req_path req) = false ->
    forall g,
      rate (behind_cors g now req s) = None
      /\ limiter (after (behind_cors g now req s)) = limiter s
      /\ answer (behind_cors g now req s) <> Some rate_limited).
  { intros Hm g. unfold behind_cors. rewrite Hm.
    pose proof (dispatch_not_limited req (pool s)) as Hd.
    destruct (dispatch req (pool s)) as [[a fx] p]. cbn in *. auto. }
  destruct (mounted "/api/" (req_path req)) eqn:Hm.
  - cbn [andb] in H. apply negb_false_iff, andb_true_iff in H.
    destruct H as [Hopt Hcb]. rewrite Hcb, Hopt. cbn.
    repeat split; try reflexivity. discriminate.
  - destruct (snd (Cors.origin_callback origins (req_origin req)));
      [destruct (is_options (req_method req))|]; auto.
Qed.

Lemma limiter_counts (now : Z) (key : option string)
    (lim : gmap (option string) RateLimit.client) (t0 : Z) (c : nat)
    (req : request) :
  in_window lim key t0 c ->
  t0 <= now < t0 + 60000 ->
  req_ip req = key ->
  RateLimit.rejected
    (fst (RateLimit.middleware RateLimit.server_options now req lim))
  = (60 <? Z.of_nat (S c))
  /\ (exists reset,
        RateLimit.quota
          (fst (RateLimit.middleware RateLimit.server_options now req lim))
        = [("RateLimit-Limit", 60);
           ("RateLimit-Remaining", Z.max 0 (60 - Z.of_nat (S c)));
           ("RateLimit-Reset", reset)])
  /\ in_window
       (snd (RateLimit.middleware RateLimit.server_options now req lim))
       key t0 (S c).
Proof.
  intros Hin Hnow Hkey.
  unfold RateLimit.middleware, RateLimit.increment.
  cbn [RateLimit.server_options RateLimit.keyGenerator RateLimit.windowMs
       RateLimit.max].
  rewrite Hkey.
  assert (exists cur,
            (match lim !! key with
             | Some cl => if RateLimit.resetTime cl <=? now
                          then {| RateLimit.totalHits := 0;
                                  RateLimit.resetTime := now + 60000 |}
                          else cl
             | None => {| RateLimit.totalHits := 0;
                          RateLimit.resetTime := now + 60000 |}
             end) = cur
            /\ RateLimit.totalHits cur = Z.of_nat c
            /\ t0 + 60000 <= RateLimit.resetTime cur) as (cur & -> & Hhits & Hreset).
  { destruct c as [|c'].
    - unfold in_window, no_window in Hin.
      destruct (lim !! key) as [cl|].
      + assert ((RateLimit.resetTime cl <=? now) = true) as -> by lia.
        eexists. split; [reflexivity|]. cbn. lia.
      + eexists. split; [reflexivity|]. cbn. lia.
    - destruct Hin as (cl & -> & Hh & Hr).
      assert ((RateLimit.resetTime cl <=? now) = false) as -> by lia.
      exists cl. auto. }
  cbn [fst snd RateLimit.rejected RateLimit.quota RateLimit.totalHits
       RateLimit.resetTime].
  rewrite Hhits. split; [f_equal; lia|]. split.
  - unfold RateLimit.quota_headers.
    cbn [RateLimit.server_options RateLimit.standardHeaders
         RateLimit.legacyHeaders RateLimit.max RateLimit.totalHits
         RateLimit.resetTime].
    rewrite app_nil_r.
    replace (Z.of_nat (S c)) with (Z.of_nat c + 1) by lia.
    eexists. reflexivity.
  - cbn [in_window]. eexists. rewrite lookup_insert_eq.
    split; [reflexivity|]. cbn. split; [lia | exact Hreset].
Qed.

Lemma limiter_other_key (now : Z) (key : option string)
    (lim : gmap (option string) RateLimit.client) (t0 : Z) (c : nat)
    (req : request) :
  in_window lim key t0 c ->
  req_ip req <> key ->
  in_window (snd (RateLimit.middleware RateLimit.server_options now req lim))
    key t0 c.
Proof.
  intros Hin Hkey.
  unfold RateLimit.middleware, RateLimit.increment.
  cbn [RateLimit.server_options RateLimit.keyGenerator snd].
  destruct c; unfold in_window, no_window in *;
    rewrite lookup_insert_ne by exact Hkey; exact Hin.
Qed.

Lemma counted_for_cons (origins : list string) (key : option string)
    (tr : Z * request) (trace : list (Z * request)) :
  counted_for origins key (tr :: trace)
  = ((if reaches_limiter origins (snd tr) && bool_decide (req_ip (snd tr) = key)
      then 1 else 0) + counted_for origins key trace)%nat.
Proof.
  unfold counted_for. cbn [List.filter].
  destruct (reaches_limiter origins (snd tr) && _); reflexivity.
Qed.

(** Within one window, the limiter hands on the first sixty requests
    of a key and rejects the rest. *)
Lemma serve_window (origins : list string) (key : option string) (t0 : Z) :
  forall (trace : list (Z * request)) (s : server) (c : nat),
    in_window (limiter s) key t0 c ->
    (forall now req, In (now, req) trace ->
       reaches_limiter origins req = true -> req_ip req = key ->
       t0 <= now < t0 + 60000) ->
    forall (i : nat) (now : Z) (req : request) (res : result),
      trace !! i = Some (now, req) ->
      serve origins trace s !! i = Some res ->
      reaches_limiter origins req = true ->
      req_ip req = key ->
      (answer res = Some rate_limited
       <-> (60 <= c + counted_for origins key (take i trace))%nat)
      /\ exists reset,
           rate res
           = Some {| RateLimit.rejected :=
                       60 <? Z.of_nat
                               (S (c + counted_for origins key (take i trace)));
                     RateLimit.quota :=
                       [("RateLimit-Limit", 60);
                        ("RateLimit-Remaining",
                         Z.max 0
                           (60 - Z.of_nat
                                   (S (c + counted_for origins key
                                              (take i trace)))));
                        ("RateLimit-Reset", reset)] |}.
Proof.
  induction trace as [|[t r] rest IH];
    intros s c Hin Hall i now req res Hi Hs Hreach Hkey;
    [discriminate|].
  destruct i as [|i].
  - cbn in Hi, Hs. inversion Hi; subst t r. inversion Hs; subst res.
    clear Hi Hs. cbn [take]. unfold counted_for at 1 2 3. cbn [List.filter length].
    rewrite Nat.add_0_r.
    destruct (app_limiter_seen origins now req s Hreach) as (Hrate & _ & Hans).
    destruct (limiter_counts now key (limiter s) t0 c req Hin) as (Hrej & (reset & Hq) & _);
      [apply (Hall now req); [left; reflexivity | exact Hreach | exact Hkey]
      | exact Hkey |].
    rewrite Hans, Hrate, Hrej. split.
    + rewrite Z.ltb_lt. lia.
    + exists reset. f_equal.
      destruct (fst (RateLimit.middleware RateLimit.server_options now req
                       (limiter s))) as [rj q].
      cbn in Hrej, Hq. subst. reflexivity.
  - cbn [serve] in Hs. cbn in Hi, Hs.
    cbn [take]. rewrite counted_for_cons. cbn [snd].
    set (b := (if reaches_limiter origins r && bool_decide (req_ip r = key)
               then 1 else 0)%nat).
    replace (c + (b + counted_for origins key (take i rest)))%nat
      with ((c + b) + counted_for origins key (take i rest))%nat by lia.
    apply (IH (after (app origins t r s)) (c + b)%nat) with (now := now) (req := req);
      try assumption.
    + subst b. destruct (reaches_limiter origins r) eqn:Hr.
      * destruct (app_limiter_seen origins t r s Hr) as (_ & -> & _).
        cbn [andb]. destruct (bool_decide (req_ip r = key)) eqn:Hk.
        -- apply bool_decide_eq_true in Hk. rewrite Nat.add_1_r.
           apply limiter_counts; [exact Hin | | exact Hk].
           apply (Hall t r); [left; reflexivity | exact Hr | exact Hk].
        -- apply bool_decide_eq_false in Hk. rewrite Nat.add_0_r.
           apply limiter_other_key; assumption.
      * destruct (app_limiter_unseen origins t r s Hr) as (_ & -> & _).
        cbn [andb]. rewrite Nat.add_0_r. exact Hin.
    + intros now' req' Hin'. apply Hall. right. exact Hin'.
Qed.

(** C6, as amended: the limiter applies only to requests whose path is
    under the mount path [/api/]; within one of its windows of 60
    seconds (no window is running for the address when the first request
    arrives, and the others arrive less than 60 seconds after it) it
    lets through the first 60 requests of an address and no more: the
    61st and every later one is answered with the rate-limit response,
    whose headers are the standard ones (limit, remaining, reset), with
    no legacy header.  The requests counted are those that reach the
    limiter. *)
Theorem limiter_fixed_window (origins : list string) :
  (forall now req s,
     (rate (app origins now req s) <> None ->
        mounted "/api/" (req_path req) = true)
     /\ (mounted "/api/" (req_path req) = false ->
           limiter (after (app origins now req s)) = limiter s
           /\ answer (app origins now req s) <> Some rate_limited)
     /\ (mounted "/api/" (req_path req) = true
         <-> lower (req_path req) = "/api"
             \/ String.prefix "/api/" (lower (req_path req)) = true))
  /\ (forall trace s key t0,
        no_window (limiter s) key t0 ->
        (forall now req, In (now, req) trace ->
           reaches_limiter origins req = true -> req_ip req = key ->
           t0 <= now < t0 + 60000) ->
        forall i now req res,
          trace !! i = Some (now, req) ->
          serve origins trace s !! i = Some res ->
          reaches_limiter origins req = true ->
          req_ip req = key ->
          (answer res = Some rate_limited
           <-> (60 <= counted_for origins key (take i trace))%nat)
          /\ exists reset,
               rate res
               = Some {| RateLimit.rejected :=
                           60 <? Z.of_nat
                                   (S (counted_for origins key (take i trace)));
                         RateLimit.quota :=
                           [("RateLimit-Limit", 60);
                            ("RateLimit-Remaining",
                             Z.max 0
                               (60 - Z.of_nat
                                       (S (counted_for origins key
                                             (take i trace)))));
                            ("RateLimit-Reset", reset)] |}).
Proof.
  split.
  - intros now req s.
    assert (Hunseen : mounted "/api/" (req_path req) = false ->
                      reaches_limiter origins req = false).
    { intros Hm. unfold reaches_limiter. rewrite Hm.
      destruct (req_body_error req); reflexivity. }
    split; [|split].
    + intros Hrate. destruct (mounted "/api/" (req_path req)) eqn:Hm;
        [reflexivity|].
      destruct (app_limiter_unseen origins now req s (Hunseen eq_refl))
        as (Hnone & _). congruence.
    + intros Hm.
      destruct (app_limiter_unseen origins now req s (Hunseen Hm))
        as (_ & Hlim & Hans). auto.
    + unfold mounted. change (without_closing_slash "/api/") with "/api"%string.
      change ("/api" ++ "/")%string with "/api/"%string.
      rewrite orb_true_iff, String.eqb_eq. reflexivity.
  - intros trace s key t0 Hnw Hall i now req res Hi Hs Hreach Hkey.
    exact (serve_window origins key t0 trace s 0%nat Hnw Hall i now req res
             Hi Hs Hreach Hkey).
Qed.

Lemma limiter_fixed_window_witness :
  match serve ["https://a.com"] Sample.burst Sample.fresh_server !! 60%nat with
  | Some res => answer res = Some rate_limited
  | None => False
  end
  /\ match serve ["https://a.com"] Sample.burst Sample.fresh_server !! 59%nat with
     | Some res => answer res <> Some rate_limited
     | None => False
     end.
Proof.
  assert (Hall : forall now req, In (now, req) Sample.burst ->
            reaches_limiter ["https://a.com"] req = true ->
            req_ip req = Some "10.0.0.1"%string ->
            0 <= now < 0 + 60000).
  { intros now req Hin _ _. unfold Sample.burst in Hin.
    apply in_map_iff in Hin. destruct Hin as (i & E & Hi).
    apply in_seq in Hi. inversion E; subst. lia. }
  split.
  - destruct (serve ["https://a.com"] Sample.burst Sample.fresh_server !! 60%nat)
      as [res|] eqn:E; [|vm_compute in E; discriminate].
    apply (proj1 (proj2 (limiter_fixed_window ["https://a.com"])
                    Sample.burst Sample.fresh_server (Some "10.0.0.1"%string) 0
                    I Hall 60%nat 30000 Sample.list_request res
                    eq_refl E eq_refl eq_refl)).
    apply Nat.leb_le. vm_compute. reflexivity.
  - destruct (serve ["https://a.com"] Sample.burst Sample.fresh_server !! 59%nat)
      as [res|] eqn:E; [|vm_compute in E; discriminate].
    intros H.
    apply (proj1 (proj2 (limiter_fixed_window ["https://a.com"])
                    Sample.burst Sample.fresh_server (Some "10.0.0.1"%string) 0
                    I Hall 59%nat 29500 Sample.list_request res
                    eq_refl E eq_refl eq_refl)) in H.
    apply Nat.leb_le in H. vm_compute in H. discriminate H.
Defined.

(** C6 as written fails for sixty-one requests within 60 seconds that
    do not fall into one window of the limiter: after one request at time
    0, the window of the address ends at 60 s; of sixty-one further
    requests between 59 s and 60.8 s, thirty-four are counted in that
    window and twenty-seven in the next, and the limiter lets all of them
    through, the sixty-first included. *)
Lemma sixty_one_requests_across_windows :
  let results := serve [] Sample.late_burst Sample.fresh_server in
  length (tail Sample.late_burst) = 61%nat
  /\ forallb (fun tr => (59000 <=? fst tr) && (fst tr <? 61000)
                        && bool_decide (req_ip (snd tr) = Some "10.0.0.1"%string)
                        && reaches_limiter [] (snd tr))
             (tail Sample.late_burst) = true
  /\ forallb (fun res => negb (rejected_by_limiter res)) results = true
  /\ option_map (fun res => option_map status (answer res))
                (nth_error results 61%nat) = Some (Some 200).
Proof. vm_compute. repeat split. Qed.

End rate_limit_claims.

(** ** Rounding to a double *)

Section double_facts.
Import JS.

Lemma Qred_integer (n : Z) : Qred (n # 1) = n # 1.
Proof.
  unfold Qred.
  pose proof (Z.ggcd_gcd n 1) as Hg.
  pose proof (Z.ggcd_correct_divisors n 1) as Hd.
  destruct (Z.ggcd n 1) as [g [a b]]. cbn [fst snd] in *.
  rewrite Z.gcd_1_r in Hg. subst g. destruct Hd as [Ha Hb].
  assert (a = n) as -> by lia. assert (b = 1) as -> by lia. reflexivity.
Qed.

Lemma Qred_scaled (n k : Z) : 0 < k -> Qred ((n * k) # Z.to_pos k) = n # 1.
Proof.
  intros Hk. rewrite <- (Qred_integer n). apply Qred_complete.
  unfold Qeq. cbn [Qnum Qden]. rewrite Z2Pos.id by lia. lia.
Qed.

Lemma round_half_even_floor (a b : Z) :
  0 < b -> a / b <= round_half_even a b <= a / b + 1.
Proof.
  intros Hb. unfold round_half_even. cbv zeta.
  destruct (2 * (a mod b) ?= b); [destruct (Z.even (a / b))| |]; lia.
Qed.

Lemma round_half_even_exact (a b : Z) : 0 < b -> round_half_even (a * b) b = a.
Proof.
  intros Hb. unfold round_half_even.
  rewrite Z.mod_mul by lia. rewrite Z.div_mul by lia.
  assert ((2 * 0 ?= b) = Lt) as -> by (apply Z.compare_lt_iff; lia).
  reflexivity.
Qed.

(** An integer of at most 53 bits is a double. *)
Lemma nearest_double_exact (n : Z) :
  0 < n <= 2 ^ 53 -> nearest_double n 1 = Fin (n # 1).
Proof.
  intros Hn. unfold nearest_double.
  change (Z.log2 1) with 0. rewrite Z.sub_0_r.
  pose proof (Z.log2_spec n ltac:(lia)) as [Hlo Hhi].
  pose proof (Z.log2_nonneg n) as Hnn.
  set (L := Z.log2 n) in *.
  assert (L <= 53) as HL.
  { destruct (Z_le_gt_dec L 53) as [|Hgt]; [assumption|].
    assert (2 ^ 54 <= 2 ^ L) by (apply Z.pow_le_mono_r; lia).
    assert (2 ^ 53 < 2 ^ 54) by (apply Z.pow_lt_mono_r; lia). lia. }
  rewrite (Z.max_l 0 (- L)) by lia. rewrite (Z.max_r 0 L) by lia.
  rewrite Z.pow_0_r, !Z.mul_1_r, Z.mul_1_l.
  replace (n <? 2 ^ L) with false by (symmetry; apply Z.ltb_ge; lia).
  rewrite (Z.max_r (-1074) (L - 52)) by lia.
  destruct (Z_lt_le_dec (L - 52) 0) as [Hneg|Hpos].
  - replace (0 <=? L - 52) with false by (symmetry; apply Z.leb_gt; lia).
    rewrite (Z.max_r 0 (- (L - 52))) by lia. rewrite (Z.max_l 0 (L - 52)) by lia.
    rewrite Z.pow_0_r, Z.mul_1_l.
    assert (0 < 2 ^ (- (L - 52))) as Hp by (apply Z.pow_pos_nonneg; lia).
    replace (round_half_even (n * 2 ^ (- (L - 52))) 1) with (n * 2 ^ (- (L - 52)))
      by (rewrite <- (Z.mul_1_r (n * 2 ^ (- (L - 52)))) at 2;
          symmetry; apply round_half_even_exact; lia).
    rewrite Qred_scaled by assumption. reflexivity.
  - replace (0 <=? L - 52) with true by (symmetry; apply Z.leb_le; lia).
    rewrite (Z.max_l 0 (- (L - 52))) by lia. rewrite (Z.max_r 0 (L - 52)) by lia.
    rewrite Z.pow_0_r, Z.mul_1_r, Z.mul_1_l.
    assert (L = 52 \/ L = 53) as [HL52|HL53] by lia.
    + replace (L - 52) with 0 by lia. rewrite Z.pow_0_r.
      assert (round_half_even n 1 = n) as ->.
      { pose proof (round_half_even_exact n 1) as Hr.
        rewrite Z.mul_1_r in Hr. apply Hr. lia. }
      rewrite Z.mul_1_r.
      replace (2 ^ 1024 <=? n) with false; [reflexivity|].
      symmetry. apply Z.leb_gt.
      assert (2 ^ 53 < 2 ^ 1024) by (apply Z.pow_lt_mono_r; lia). lia.
    + replace (L - 52) with 1 by lia.
      assert (n = 2 ^ 53) as -> by (rewrite HL53 in Hlo; lia).
      vm_compute. reflexivity.
Qed.

(** A larger integer rounds to an integer of at least [2^53], or to
    infinity. *)
Lemma nearest_double_large (n : Z) :
  2 ^ 53 < n ->
  nearest_double n 1 = PosInf
  \/ exists k, 2 ^ 53 <= k /\ nearest_double n 1 = Fin (k # 1).
Proof.
  intros Hn. unfold nearest_double.
  change (Z.log2 1) with 0. rewrite Z.sub_0_r.
  assert (0 < 2 ^ 53) as H53 by (apply Z.pow_pos_nonneg; lia).
  pose proof (Z.log2_spec n ltac:(lia)) as [Hlo Hhi].
  set (L := Z.log2 n) in *.
  assert (53 <= L) as HL.
  { destruct (Z_le_gt_dec 53 L) as [|Hgt]; [assumption|].
    assert (2 ^ (Z.succ L) <= 2 ^ 53) by (apply Z.pow_le_mono_r; lia). lia. }
  rewrite (Z.max_l 0 (- L)) by lia. rewrite (Z.max_r 0 L) by lia.
  rewrite Z.pow_0_r, !Z.mul_1_r, Z.mul_1_l.
  replace (n <? 2 ^ L) with false by (symmetry; apply Z.ltb_ge; lia).
  rewrite (Z.max_r (-1074) (L - 52)) by lia.
  replace (0 <=? L - 52) with true by (symmetry; apply Z.leb_le; lia).
  rewrite (Z.max_l 0 (- (L - 52))) by lia. rewrite (Z.max_r 0 (L - 52)) by lia.
  rewrite Z.pow_0_r, Z.mul_1_r, Z.mul_1_l.
  set (e := L - 52). set (m := round_half_even n (2 ^ e)).
  destruct (2 ^ 1024 <=? m * 2 ^ e); [left; reflexivity|right].
  exists (m * 2 ^ e). split; [|reflexivity].
  assert (0 < 2 ^ e) as He by (apply Z.pow_pos_nonneg; lia).
  assert (2 ^ 52 <= m) as Hm.
  { pose proof (round_half_even_floor n (2 ^ e) He) as [Hfl _]. fold m in Hfl.
    assert (2 ^ 52 <= n / 2 ^ e); [|lia].
    apply Z.div_le_lower_bound; [assumption|].
    rewrite <- Z.pow_add_r by lia. replace (e + 52) with L by lia. assumption. }
  assert (2 <= 2 ^ e) as He2.
  { change 2 with (2 ^ 1) at 1. apply Z.pow_le_mono_r; lia. }
  change (2 ^ 53) with (2 ^ 52 * 2).
  assert (0 < 2 ^ 52) by (apply Z.pow_pos_nonneg; lia). nia.
Qed.

Lemma to_double_integer (v : Z) :
  - 2 ^ 53 <= v <= 2 ^ 53 -> to_double (inject_Z v) = Fin (inject_Z v).
Proof.
  intros Hv. unfold to_double, inject_Z. cbn [Qnum Qden].
  destruct v as [|p|p]; [reflexivity| |].
  - apply nearest_double_exact. lia.
  - rewrite nearest_double_exact by lia. reflexivity.
Qed.

Lemma to_double_large (v : Z) :
  2 ^ 53 < v ->
  to_double (inject_Z v) = PosInf
  \/ exists k, 2 ^ 53 <= k /\ to_double (inject_Z v) = Fin (inject_Z k).
Proof.
  intros Hv. unfold to_double, inject_Z. cbn [Qnum Qden].
  assert (0 < 2 ^ 53) by (apply Z.pow_pos_nonneg; lia).
  destruct v as [|p|p]; try lia.
  apply nearest_double_large. exact Hv.
Qed.

End double_facts.

(** ** Theorems: [Number] on decimal numerals *)

Section numeral_facts.
Import Express Server Spec.

Lemma digit_char_code (d : Z) : 0 <= d < 10 -> JS.code (digit_char d) = 48 + d.
Proof.
  intros H.
  assert (d = 0 \/ d = 1 \/ d = 2 \/ d = 3 \/ d = 4 \/ d = 5 \/ d = 6
          \/ d = 7 \/ d = 8 \/ d = 9) as Hd by lia.
  repeat (destruct Hd as [-> | Hd]; [reflexivity|]). subst d. reflexivity.
Qed.

Lemma digit_of_digit_char (d : Z) :
  0 <= d < 10 -> JS.digit_of 10 (digit_char d) = Some d.
Proof.
  intros H. unfold JS.digit_of. rewrite (digit_char_code d H).
  assert (((48 <=? 48 + d) && (48 + d <=? 57)) = true) as -> by lia.
  replace (48 + d - 48) with d by lia.
  assert ((d <? 10) = true) as -> by lia. reflexivity.
Qed.

Lemma digit_char_no_space (d : Z) :
  0 <= d < 10 -> JS.is_space (digit_char d) = false.
Proof.
  intros H. unfold JS.is_space. rewrite (digit_char_code d H). lia.
Qed.

Lemma take_digits_numeral (ds : list Z) :
  Forall (fun d => 0 <= d < 10) ds ->
  JS.take_digits 10 (map digit_char ds) = (ds, []).
Proof.
  induction 1 as [|d ds Hd _ IH]; [reflexivity|].
  cbn [map JS.take_digits]. rewrite (digit_of_digit_char d Hd), IH. reflexivity.
Qed.

Lemma drop_space_none (l : list ascii) :
  Forall (fun c => JS.is_space c = false) l -> JS.drop_space l = l.
Proof. destruct 1 as [|c l Hc _]; [reflexivity|]. cbn. rewrite Hc. reflexivity. Qed.

Lemma trim_list_none (l : list ascii) :
  Forall (fun c => JS.is_space c = false) l -> JS.trim_list l = l.
Proof.
  intros H. unfold JS.trim_list. rewrite (drop_space_none l H).
  rewrite drop_space_none by (apply Forall_rev; exact H).
  apply rev_involutive.
Qed.

Lemma numeral_no_space (ds : list Z) :
  Forall (fun d => 0 <= d < 10) ds ->
  Forall (fun c => JS.is_space c = false) (map digit_char ds).
Proof.
  induction 1 as [|d ds Hd _ IH]; constructor;
    [apply digit_char_no_space; exact Hd | exact IH].
Qed.

(** An unsigned decimal numeral denotes the double nearest to its
    value. *)
Lemma parse_unsigned_numeral (ds : list Z) :
  is_numeral ds ->
  JS.parse_unsigned_decimal (map digit_char ds)
  = JS.to_double (inject_Z (JS.digits_value 10 ds)).
Proof.
  intros [Hne Hds]. unfold JS.parse_unsigned_decimal.
  destruct (decide (map digit_char ds = list_ascii_of_string "Infinity"))
    as [E|_].
  { destruct ds as [|d ds]; [congruence|]. exfalso.
    inversion Hds as [|? ? Hd _]; subst.
    assert (JS.code (digit_char d) = 73) as Ec.
    { change 73 with (match list_ascii_of_string "Infinity" with
                      | c :: _ => JS.code c
                      | [] => 0
                      end).
      rewrite <- E. reflexivity. }
    rewrite (digit_char_code d Hd) in Ec. lia. }
  rewrite (take_digits_numeral ds Hds). rewrite app_nil_r.
  destruct ds as [|d ds]; [congruence|].
  cbn [JS.parse_exponent length]. unfold JS.scale10. cbn [Z.of_nat Z.sub Z.leb].
  change (0 - 0) with 0. cbn [Z.leb Z.compare]. rewrite Z.pow_0_r, Z.mul_1_r.
  reflexivity.
Qed.

Lemma number_of_numeral (ds : list Z) :
  is_numeral ds ->
  JS.string_to_number (numeral ds)
  = JS.to_double (inject_Z (JS.digits_value 10 ds)).
Proof.
  intros Hn. pose proof Hn as [Hne Hds]. unfold JS.string_to_number, numeral.
  rewrite list_ascii_of_string_of_list_ascii.
  rewrite (trim_list_none _ (numeral_no_space ds Hds)).
  rewrite <- (parse_unsigned_numeral ds Hn).
  destruct ds as [|d ds]; [congruence|].
  inversion Hds as [|? ? Hd Hrest]; subst. cbn [map].
  assert (JS.parse_prefixed (digit_char d :: map digit_char ds) = None) as ->.
  { unfold JS.parse_prefixed. destruct ds as [|d' ds]; [reflexivity|].
    cbn [map]. inversion Hrest as [|? ? Hd' _]; subst.
    destruct (JS.code (digit_char d) =? 48); [|reflexivity].
    rewrite (digit_char_code d' Hd').
    assert (((48 + d' =? 120) || (48 + d' =? 88)) = false) as -> by lia.
    assert (((48 + d' =? 111) || (48 + d' =? 79)) = false) as -> by lia.
    assert (((48 + d' =? 98) || (48 + d' =? 66)) = false) as -> by lia.
    reflexivity. }
  rewrite (digit_char_code d Hd).
  assert ((48 + d =? 45) = false) as -> by lia.
  assert ((48 + d =? 43) = false) as -> by lia.
  reflexivity.
Qed.

Lemma digits_value_nonneg (ds : list Z) :
  Forall (fun d => 0 <= d < 10) ds -> 0 <= JS.digits_value 10 ds.
Proof.
  unfold JS.digits_value.
  assert (forall acc, 0 <= acc ->
            Forall (fun d => 0 <= d < 10) ds ->
            0 <= fold_left (fun a d => a * 10 + d) ds acc) as H.
  { induction ds as [|d ds IH]; intros acc Hacc Hds; [exact Hacc|].
    inversion Hds; subst. cbn [fold_left]. apply IH; [lia | assumption]. }
  intros Hds. apply H; [lia | exact Hds].
Qed.

(** The clamped value of an integer, before rounding. *)
Lemma clamped_exact_integer (v : Z) :
  0 <= v ->
  clamped (JS.Fin (inject_Z v))
  = if v =? 0 then JS.Fin 20 else JS.Fin (inject_Z (clamp v)).
Proof.
  intros Hv. rewrite clamped_cases.
  change (Qnum (inject_Z v)) with v.
  destruct (v =? 0) eqn:Hz; [reflexivity|]. apply Z.eqb_neq in Hz.
  unfold clamp.
  destruct (Qle_bool 100 (inject_Z v)) eqn:Hhi.
  - apply Qle_bool_iff in Hhi. unfold Qle, inject_Z in Hhi. cbn in Hhi.
    rewrite Z.min_l, Z.max_r by lia. reflexivity.
  - assert (~ (100 <= inject_Z v)%Q) as Hlt.
    { intros H. apply Qle_bool_iff in H. congruence. }
    unfold Qle, inject_Z in Hlt. cbn in Hlt.
    destruct (Qle_bool (inject_Z v) 1) eqn:Hlo.
    + apply Qle_bool_iff in Hlo. unfold Qle, inject_Z in Hlo. cbn in Hlo.
      assert (v = 1) as -> by lia. reflexivity.
    + assert (~ (inject_Z v <= 1)%Q) as Hgt.
      { intros H. apply Qle_bool_iff in H. congruence. }
      unfold Qle, inject_Z in Hgt. cbn in Hgt.
      rewrite Z.min_r, Z.max_r by lia. reflexivity.
Qed.

(** Rounding to a double does not change the clamped value of an
    integer. *)
Lemma clamped_integer (v : Z) :
  0 <= v ->
  clamped (JS.to_double (inject_Z v))
  = if v =? 0 then JS.Fin 20 else JS.Fin (inject_Z (clamp v)).
Proof.
  intros Hv. assert (0 < 2 ^ 53) as H53 by (apply Z.pow_pos_nonneg; lia).
  destruct (Z_le_gt_dec v (2 ^ 53)) as [Hsmall|Hbig].
  - rewrite to_double_integer by lia. apply clamped_exact_integer. exact Hv.
  - assert ((v =? 0) = false) as -> by lia.
    assert (2 ^ 53 = 9007199254740992) as E53 by reflexivity.
    assert (clamp v = 100) as -> by (unfold clamp; lia).
    destruct (to_double_large v ltac:(lia)) as [-> | (k & Hk & ->)];
      [reflexivity|].
    rewrite clamped_exact_integer by lia.
    assert ((k =? 0) = false) as -> by lia.
    assert (clamp k = 100) as -> by (unfold clamp; lia). reflexivity.
Qed.

Lemma clamped_negative_integer (v : Z) :
  0 <= v ->
  clamped (JS.negate (JS.to_double (inject_Z v)))
  = if v =? 0 then JS.Fin 20 else JS.Fin 1.
Proof.
  intros Hv. assert (0 < 2 ^ 53) as H53 by (apply Z.pow_pos_nonneg; lia).
  assert (forall k, 0 <= k ->
            clamped (JS.negate (JS.Fin (inject_Z k)))
            = if k =? 0 then JS.Fin 20 else JS.Fin 1) as Hexact.
  { intros k Hk. rewrite clamped_cases. cbn [JS.negate].
    change (Qnum (- inject_Z k)) with (- k).
    destruct (k =? 0) eqn:Hz.
    - apply Z.eqb_eq in Hz. rewrite Hz. reflexivity.
    - apply Z.eqb_neq in Hz.
      assert ((- k =? 0) = false) as -> by lia.
      assert (Qle_bool 100 (- inject_Z k) = false) as ->.
      { apply not_true_is_false. intros H. apply Qle_bool_iff in H.
        unfold Qle, Qopp, inject_Z in H. cbn in H. lia. }
      assert (Qle_bool (- inject_Z k) 1 = true) as ->.
      { apply Qle_bool_iff. unfold Qle, Qopp, inject_Z. cbn. lia. }
      reflexivity. }
  destruct (Z_le_gt_dec v (2 ^ 53)) as [Hsmall|Hbig].
  - rewrite to_double_integer by lia. apply Hexact. exact Hv.
  - assert ((v =? 0) = false) as -> by lia.
    destruct (to_double_large v ltac:(lia)) as [-> | (k & Hk & ->)];
      [reflexivity|].
    rewrite Hexact by lia.
    assert ((k =? 0) = false) as -> by lia. reflexivity.
Qed.

(** X1: for a limit written as a decimal numeral, the effective limit is
    the value clamped to 1..100, except that the value zero gives 20. *)
Theorem effective_limit_of_numeral (req : request) (ds : list Z) :
  is_numeral ds ->
  req_query_limit req = Some (QStr (numeral ds)) ->
  effective_limit req
  = Some (if JS.digits_value 10 ds =? 0 then JS.Fin 20
          else JS.Fin (inject_Z (clamp (JS.digits_value 10 ds)))).
Proof.
  intros Hn Hq. unfold effective_limit. rewrite Hq.
  cbn [to_number qval_to_string]. rewrite (number_of_numeral ds Hn).
  rewrite clamped_integer by (apply digits_value_nonneg, Hn). reflexivity.
Qed.

Lemma effective_limit_of_numeral_witness :
  effective_limit (Sample.with_limit "007" Sample.list_request)
  = Some (JS.Fin 7).
Proof.
  apply (effective_limit_of_numeral
           (Sample.with_limit "007" Sample.list_request) [0; 0; 7]).
  - split; [discriminate | repeat constructor; lia].
  - reflexivity.
Defined.

Lemma number_of_negative_numeral (ds : list Z) :
  is_numeral ds ->
  JS.string_to_number (String "-" (numeral ds))
  = JS.negate (JS.to_double (inject_Z (JS.digits_value 10 ds))).
Proof.
  intros Hn. pose proof Hn as [Hne Hds]. unfold JS.string_to_number, numeral.
  cbn [list_ascii_of_string]. rewrite list_ascii_of_string_of_list_ascii.
  rewrite trim_list_none
    by (constructor; [reflexivity | apply numeral_no_space; exact Hds]).
  assert (JS.parse_prefixed ("-"%char :: map digit_char ds) = None) as ->.
  { unfold JS.parse_prefixed. destruct (map digit_char ds); reflexivity. }
  change (JS.code "-" =? 45) with true. cbv iota.
  rewrite (parse_unsigned_numeral ds Hn). reflexivity.
Qed.

(** X2: for a limit written as a minus sign and a decimal numeral, the
    effective limit is 1, except that minus zero gives 20. *)
Theorem effective_limit_of_negative_numeral (req : request) (ds : list Z) :
  is_numeral ds ->
  req_query_limit req = Some (QStr (String "-" (numeral ds))) ->
  effective_limit req
  = Some (if JS.digits_value 10 ds =? 0 then JS.Fin 20 else JS.Fin 1).
Proof.
  intros Hn Hq. unfold effective_limit. rewrite Hq.
  cbn [to_number qval_to_string]. rewrite (number_of_negative_numeral ds Hn).
  rewrite clamped_negative_integer by (apply digits_value_nonneg, Hn).
  reflexivity.
Qed.

Lemma effective_limit_of_negative_numeral_witness :
  effective_limit (Sample.with_limit "-5" Sample.list_request)
  = Some (JS.Fin 1).
Proof.
  apply (effective_limit_of_negative_numeral
           (Sample.with_limit "-5" Sample.list_request) [5]).
  - split; [discriminate | repeat constructor; lia].
  - reflexivity.
Defined.

End numeral_facts.

(** ** Theorems: the configured allow-list *)

Section allow_list_facts.
Import Express Server Spec.

Lemma split_commas_not_nil (s : string) : Cors.split_commas s <> [].
Proof.
  destruct s as [|c r]; cbn [Cors.split_commas]; [discriminate|].
  destruct (JS.code c =? 44); [discriminate|].
  destruct (Cors.split_commas r); discriminate.
Qed.

Lemma comma_free_cons (c : ascii) (s : string) :
  comma_free (String c s) <-> JS.code c <> 44 /\ comma_free s.
Proof.
  unfold comma_free. cbn [list_ascii_of_string]. split.
  - intros H. inversion H; subst. auto.
  - intros [Hc Hs]. constructor; assumption.
Qed.

(** Splitting at commas undoes joining with commas. *)
Lemma split_commas_piece (x rest : string) :
  comma_free x ->
  Cors.split_commas (x ++ String "," rest)%string = x :: Cors.split_commas rest.
Proof.
  induction x as [|c x IH]; intros Hx; [reflexivity|].
  apply comma_free_cons in Hx. destruct Hx as [Hc Hx].
  simpl. apply Z.eqb_neq in Hc. rewrite Hc, (IH Hx). reflexivity.
Qed.

Lemma split_commas_single (x : string) :
  comma_free x -> Cors.split_commas x = [x].
Proof.
  induction x as [|c x IH]; intros Hx; [reflexivity|].
  apply comma_free_cons in Hx. destruct Hx as [Hc Hx].
  cbn [Cors.split_commas]. apply Z.eqb_neq in Hc.
  rewrite Hc, (IH Hx). reflexivity.
Qed.

Lemma trim_leading_space (s : string) : JS.trim (String " " s) = JS.trim s.
Proof. reflexivity. Qed.

Lemma origins_of_pieces (s : string) :
  Cors.origins_of (Some s)
  = List.filter JS.truthy_string (map JS.trim (Cors.split_commas s)).
Proof. unfold Cors.origins_of. destruct s; reflexivity. Qed.

Lemma origins_of_concat (os : list string) :
  Forall plain_origin os ->
  Cors.origins_of (Some (String.concat "," os)) = os
  /\ Cors.origins_of (Some (String.concat ", " os)) = os.
Proof.
  intros Hos. rewrite !origins_of_pieces. split.
  - induction Hos as [|o os (Hne & Hcf & Htrim) Hos IH]; [reflexivity|].
    destruct os as [|o' os].
    + cbn [String.concat]. rewrite (split_commas_single o Hcf).
      cbn [map List.filter]. rewrite Htrim.
      destruct o; [congruence | reflexivity].
    + change (String.concat "," (o :: o' :: os))
        with (o ++ String "," (String.concat "," (o' :: os)))%string.
      rewrite (split_commas_piece _ _ Hcf). cbn [map List.filter].
      rewrite Htrim, IH. destruct o; [congruence | reflexivity].
  - assert (forall os, Forall plain_origin os -> os <> [] ->
              List.filter JS.truthy_string
                (map JS.trim
                   (Cors.split_commas (String " " (String.concat ", " os))))
              = os) as Hspaced.
    { clear os Hos. intros os Hos.
      induction Hos as [|o os (Hne & Hcf & Htrim) Hos IH]; [congruence|].
      intros _. destruct os as [|o' os].
      - cbn [String.concat].
        assert (comma_free (String " " o)) as Hcf'.
        { apply comma_free_cons. split; [discriminate | exact Hcf]. }
        rewrite (split_commas_single _ Hcf'). cbn [map List.filter].
        rewrite trim_leading_space, Htrim.
        destruct o; [congruence | reflexivity].
      - change (String " " (String.concat ", " (o :: o' :: os)))
          with (String " " o
                ++ String "," (String " " (String.concat ", " (o' :: os))))%string.
        assert (comma_free (String " " o)) as Hcf'.
        { apply comma_free_cons. split; [discriminate | exact Hcf]. }
        rewrite (split_commas_piece _ _ Hcf'). cbn [map List.filter].
        rewrite trim_leading_space, Htrim, IH by discriminate.
        destruct o; [congruence | reflexivity]. }
    destruct Hos as [|o os (Hne & Hcf & Htrim) Hos]; [reflexivity|].
    destruct os as [|o' os].
    + cbn [String.concat]. rewrite (split_commas_single o Hcf).
      cbn [map List.filter]. rewrite Htrim.
      destruct o; [congruence | reflexivity].
    + change (String.concat ", " (o :: o' :: os))
        with (o ++ String "," (String " " (String.concat ", " (o' :: os))))%string.
      rewrite (split_commas_piece _ _ Hcf). cbn [map List.filter].
      rewrite Htrim, Hspaced by (assumption || discriminate).
      destruct o; [congruence | reflexivity].
Qed.

(** X5: an allow-list written as plain origins separated by commas, or by
    a comma and a space, is read back as exactly those origins, in
    order. *)
Theorem origins_of_joined (os : list string) :
  Forall plain_origin os ->
  Cors.origins_of (Some (String.concat "," os)) = os
  /\ Cors.origins_of (Some (String.concat ", " os)) = os.
Proof. exact (origins_of_concat os). Qed.

Lemma origins_of_joined_witness :
  Cors.origins_of (Some "https://a.com, https://b.com")
  = ["https://a.com"; "https://b.com"]%string.
Proof.
  refine (proj2 (origins_of_joined ["https://a.com"; "https://b.com"]%string _)).
  repeat constructor; try discriminate;
    unfold comma_free; cbn [list_ascii_of_string];
    repeat constructor; discriminate.
Defined.

(** X6: when [CORS_ORIGIN] is unset, empty, or holds nothing but commas
    and white space, the allow-list is empty, the origin callback accepts
    every origin, and every request that reaches the CORS check (one
    whose body the JSON parser does not refuse) is permitted, whatever
    its origin, with credentials allowed. *)
Theorem unset_allow_list_permits_all (env : option string) :
  (forall piece, In piece (Cors.split_commas (configured env)) ->
     JS.trim piece = EmptyString) ->
  Cors.origins_of env = []
  /\ (forall origin,
        Cors.origin_callback (Cors.origins_of env) origin = (None, true))
  /\ forall now req s,
       req_body_error req = None ->
       cors (app (Cors.origins_of env) now req s)
       = Cors.allowed
           (if Cors.falsy_origin (req_origin req) then None else req_origin req)
           true.
Proof.
  intros Hblank.
  assert (Cors.origins_of env = []) as Hnone.
  { destruct (Cors.origins_of env) as [|o os] eqn:E; [reflexivity|].
    assert (In o (Cors.origins_of env)) as Hin by (rewrite E; left; reflexivity).
    apply origins_of_spec in Hin. destruct Hin as (Hne & piece & Hp & Ht).
    rewrite (Hblank piece Hp) in Ht. congruence. }
  split; [exact Hnone|]. rewrite Hnone. split.
  - intros origin. unfold Cors.origin_callback. cbn [length Z.of_nat Z.eqb].
    rewrite orb_true_r. reflexivity.
  - intros now req s Hacc.
    rewrite app_cors, middleware_grant by exact Hacc.
    unfold Cors.origin_callback. cbn [length Z.of_nat Z.eqb].
    rewrite orb_true_r. reflexivity.
Qed.

Lemma unset_allow_list_permits_all_witness :
  cors (app (Cors.origins_of (Some " , ,")) 0
            (Sample.from_origin "https://evil.example" Sample.list_request)
            Sample.fresh_server)
  = Cors.allowed (Some "https://evil.example") true.
Proof.
  refine (proj2 (proj2 (unset_allow_list_permits_all (Some " , ,") _)) 0
            (Sample.from_origin "https://evil.example" Sample.list_request)
            Sample.fresh_server eq_refl).
  intros piece Hin. vm_compute in Hin.
  destruct Hin as [<- | [<- | [<- | []]]]; reflexivity.
Defined.

Lemma drop_space_idem (l : list ascii) :
  JS.drop_space (JS.drop_space l) = JS.drop_space l.
Proof.
  induction l as [|c r IH]; [reflexivity|]. cbn.
  destruct (JS.is_space c) eqn:Hc; [exact IH|]. cbn. rewrite Hc. reflexivity.
Qed.

Lemma drop_space_snoc (l : list ascii) (c : ascii) :
  JS.is_space c = false -> JS.drop_space (l ++ [c]) = JS.drop_space l ++ [c].
Proof.
  intros Hc. induction l as [|x r IH]; [cbn; rewrite Hc; reflexivity|].
  cbn. destruct (JS.is_space x); [exact IH | reflexivity].
Qed.

Lemma drop_space_head (l : list ascii) :
  match JS.drop_space l with
  | c :: _ => JS.is_space c = false
  | [] => True
  end.
Proof.
  induction l as [|c r IH]; [exact I|]. cbn.
  destruct (JS.is_space c) eqn:Hc; [exact IH | exact Hc].
Qed.

(** Trimming a trimmed string changes nothing. *)
Lemma trim_list_idem (l : list ascii) :
  JS.trim_list (JS.trim_list l) = JS.trim_list l.
Proof.
  assert (JS.drop_space (JS.trim_list l) = JS.trim_list l) as Hfront.
  { unfold JS.trim_list. pose proof (drop_space_head l) as Hhead.
    destruct (JS.drop_space l) as [|c d]; [reflexivity|].
    cbn [rev]. rewrite (drop_space_snoc _ _ Hhead), rev_app_distr.
    cbn [rev Datatypes.app JS.drop_space]. rewrite Hhead. reflexivity. }
  assert (JS.drop_space (rev (JS.trim_list l)) = rev (JS.trim_list l)) as Hback.
  { unfold JS.trim_list. rewrite rev_involutive. apply drop_space_idem. }
  unfold JS.trim_list at 1. rewrite Hfront, Hback. apply rev_involutive.
Qed.

Lemma trim_idem (s : string) : JS.trim (JS.trim s) = JS.trim s.
Proof.
  unfold JS.trim. rewrite list_ascii_of_string_of_list_ascii, trim_list_idem.
  reflexivity.
Qed.

Lemma drop_space_sub (l : list ascii) (c : ascii) :
  In c (JS.drop_space l) -> In c l.
Proof.
  induction l as [|x r IH]; [tauto|]. cbn.
  destruct (JS.is_space x); [intros H; right; exact (IH H) | tauto].
Qed.

Lemma trim_comma_free (s : string) : comma_free s -> comma_free (JS.trim s).
Proof.
  unfold comma_free, JS.trim. rewrite list_ascii_of_string_of_list_ascii.
  rewrite !Forall_forall. intros H c Hc. apply H.
  apply list_elem_of_In. apply list_elem_of_In in Hc.
  unfold JS.trim_list in Hc. apply in_rev, drop_space_sub in Hc.
  apply in_rev in Hc. exact (drop_space_sub _ _ Hc).
Qed.

Lemma split_commas_comma_free (s piece : string) :
  In piece (Cors.split_commas s) -> comma_free piece.
Proof.
  revert piece. induction s as [|c r IH]; intros piece.
  - intros [<- | []]. constructor.
  - cbn [Cors.split_commas]. destruct (JS.code c =? 44) eqn:Hc.
    + intros [<- | Hin]; [constructor | exact (IH _ Hin)].
    + pose proof (split_commas_not_nil r) as Hne.
      destruct (Cors.split_commas r) as [|h t]; [congruence|].
      intros [<- | Hin].
      * apply comma_free_cons. split; [lia | apply IH; left; reflexivity].
      * apply IH. right. exact Hin.
Qed.

(** X16: the allow-list is in normal form.  Whatever [CORS_ORIGIN]
    holds, no entry of the allow-list is empty, holds a comma, or has
    white space at either end; joining the entries with commas and
    reading them again gives the same list. *)
Theorem allow_list_normal_form (env : option string) :
  Forall plain_origin (Cors.origins_of env)
  /\ Cors.origins_of (Some (String.concat "," (Cors.origins_of env)))
     = Cors.origins_of env.
Proof.
  assert (Forall plain_origin (Cors.origins_of env)) as Hplain.
  { apply Forall_forall. intros o Ho. apply list_elem_of_In in Ho.
    apply origins_of_spec in Ho. destruct Ho as (Hne & piece & Hp & <-).
    split; [exact Hne|]. split.
    - apply trim_comma_free. exact (split_commas_comma_free _ _ Hp).
    - apply trim_idem. }
  split; [exact Hplain|]. exact (proj1 (origins_of_concat _ Hplain)).
Qed.

End allow_list_facts.

(** ** Theorems: what the handlers do to the store *)

Section handler_facts.
Import Express Server Spec.

Lemma text_issue_none (t : value) :
  text_issue t = None ->
  exists text, t = VStr text /\ 1 <= Z.of_nat (String.length text) <= 2000.
Proof.
  destruct t; try discriminate. cbn [text_issue].
  destruct (Z.of_nat (String.length s) <? 1) eqn:Hlo; [discriminate|].
  destruct (2000 <? Z.of_nat (String.length s)) eqn:Hhi; [discriminate|].
  intros _. exists s. split; [reflexivity | lia].
Qed.

Lemma meta_document_eq (m : value) :
  meta_issue m = None ->
  (if truthy (match m with VObj fs => stored_meta fs | _ => VUndefined end)
   then match m with VObj fs => stored_meta fs | _ => VUndefined end
   else VObj [])
  = meta_document m.
Proof. destruct m; try discriminate; reflexivity. Qed.

(** The create handler, case by case. *)
Lemma post_queries_cases (req : request) (db : Pg.db) :
  (exists issues,
     Zod.safeParse QuerySchema (req_body req) = inr issues
     /\ post_queries req db
        = {| reply := {| status := 400;
                         content := invalid_payload (Zod.flatten issues) |};
             pool_after := db; effects := [] |})
  \/ (exists fields text,
        req_body req = VObj fields
        /\ prop "text" fields = VStr text
        /\ 1 <= Z.of_nat (String.length text) <= 2000
        /\ meta_issue (prop "meta" fields) = None
        /\ post_queries req db
           = let stmt := Pg.insert_query_log text (client_address req)
                           (stringify (meta_document (prop "meta" fields))) in
             match Pg.refuses db stmt with
             | Some e =>
                 {| reply := respond 500 [("error", VStr "DB insert failed")];
                    pool_after := db;
                    effects := [ran_query stmt; console_error e] |}
             | None =>
                 {| reply := respond 201
                               [("ok", VBool true);
                                ("id", VNum (JS.Fin (inject_Z (Pg.next_id db))));
                                ("createdAt", VDate (Pg.clock db))];
                    pool_after :=
                      {| Pg.table :=
                           Pg.table db
                           ++ [{| Pg.row_id := Pg.next_id db;
                                  Pg.row_text := text;
                                  Pg.row_ip := client_address req;
                                  Pg.row_meta :=
                                    stringify (meta_document (prop "meta" fields));
                                  Pg.row_created_at := Pg.clock db |}];
                         Pg.next_id := Pg.next_id db + 1;
                         Pg.clock := Pg.clock db;
                         Pg.refuses := Pg.refuses db |};
                    effects := [ran_query stmt] |}
             end).
Proof.
  unfold post_queries.
  destruct (Zod.safeParse QuerySchema (req_body req)) as [data|issues] eqn:Hp;
    [|left; eauto].
  right. destruct (req_body req) as [| | | | | | |fields] eqn:Hb;
    try discriminate.
  rewrite safeParse_object in Hp.
  destruct (text_issue (prop "text" fields)) as [w1|] eqn:Ht; [discriminate|].
  destruct (meta_issue (prop "meta" fields)) as [w2|] eqn:Hm; [discriminate|].
  assert (data = snd (Zod.parse QuerySchema [] (VObj fields))) as ->
    by congruence.
  clear Hp.
  destruct (text_issue_none _ Ht) as (text & Htext & Hlen).
  destruct (parse_query_data fields text Htext Hm) as [Hgt Hgm].
  exists fields, text. repeat (split; [assumption || reflexivity|]).
  cbv zeta. rewrite Hgt, Hgm, (meta_document_eq _ Hm). cbn [text_of].
  unfold Pg.query.
  destruct (Pg.refuses db _); reflexivity.
Qed.

Lemma client_address_not_empty (req : request) :
  client_address req <> Some EmptyString.
Proof.
  unfold client_address.
  destruct (match req_ips req with a :: _ => Some a | [] => req_ip req end)
    as [[|c a]|]; discriminate.
Qed.

(** X7: the create endpoint has three outcomes and no other.  It answers
    400 and sends nothing; or it answers 500 after one statement that the
    store refused, the failure logged; or it answers 201 after one
    statement that appended one row.  The store changes in the last case
    only, and the row then has a text of 1 to 2000 code units and an
    address that is null or a non-empty string. *)
Theorem create_outcomes (req : request) (db : Pg.db) :
  (status (reply (post_queries req db)) = 400
   /\ effects (post_queries req db) = []
   /\ pool_after (post_queries req db) = db)
  \/ (status (reply (post_queries req db)) = 500
      /\ pool_after (post_queries req db) = db
      /\ exists stmt e,
           effects (post_queries req db) = [ran_query stmt; console_error e]
           /\ Pg.refuses db stmt = Some e)
  \/ (status (reply (post_queries req db)) = 201
      /\ exists stmt r,
           effects (post_queries req db) = [ran_query stmt]
           /\ Pg.table (pool_after (post_queries req db)) = Pg.table db ++ [r]
           /\ 1 <= Z.of_nat (String.length (Pg.row_text r)) <= 2000
           /\ Pg.row_ip r <> Some EmptyString
           /\ Pg.row_id r = Pg.next_id db
           /\ Pg.next_id (pool_after (post_queries req db)) = Pg.next_id db + 1).
Proof.
  destruct (post_queries_cases req db)
    as [(issues & _ & ->) | (fields & text & _ & _ & Hlen & _ & ->)].
  - left. repeat split.
  - cbv zeta. destruct (Pg.refuses db _) as [e|] eqn:Hr.
    + right. left. repeat split. eauto.
    + right. right. split; [reflexivity|].
      eexists _, _. cbn [effects pool_after Pg.table Pg.next_id].
      split; [reflexivity|]. split; [reflexivity|].
      cbn [Pg.row_text Pg.row_ip Pg.row_id].
      repeat split; try lia. apply client_address_not_empty.
Qed.

(** The create handler on an object, as a function of its two fields
    and of the client address. *)
Lemma post_queries_object (req : request) (db : Pg.db)
    (fields : list (string * value)) :
  req_body req = VObj fields ->
  post_queries req db
  = match text_issue (prop "text" fields), meta_issue (prop "meta" fields) with
    | None, None =>
        let stmt := Pg.insert_query_log (text_of (prop "text" fields))
                      (client_address req)
                      (stringify (meta_document (prop "meta" fields))) in
        match Pg.query db stmt with
        | (inl (first :: _), pool') =>
            {| reply := respond 201 [("ok", VBool true);
                                     ("id", get "id" first);
                                     ("createdAt", get "created_at" first)];
               pool_after := pool';
               effects := [ran_query stmt] |}
        | (inl [], pool') =>
            {| reply := respond 500 [("error", VStr "DB insert failed")];
               pool_after := pool';
               effects :=
                 [ran_query stmt;
                  console_error
                    (Pg.type_error "Cannot read properties of undefined")] |}
        | (inr e, pool') =>
            {| reply := respond 500 [("error", VStr "DB insert failed")];
               pool_after := pool';
               effects := [ran_query stmt; console_error e] |}
        end
    | w1, w2 =>
        {| reply :=
             {| status := 400;
                content :=
                  invalid_payload
                    (Zod.flatten (field_issue "text" w1 ++ field_issue "meta" w2)) |};
           pool_after := db; effects := [] |}
    end.
Proof.
  intros Hb. unfold post_queries. rewrite Hb, safeParse_object.
  destruct (text_issue (prop "text" fields)) as [w1|] eqn:Ht; [reflexivity|].
  destruct (meta_issue (prop "meta" fields)) as [w2|] eqn:Hm; [reflexivity|].
  destruct (text_issue_none _ Ht) as (text & Htext & Hlen).
  destruct (parse_query_data fields text Htext Hm) as [Hgt Hgm].
  cbv zeta. rewrite Hgt, Hgm, (meta_document_eq _ Hm), Htext. reflexivity.
Qed.

(** X8: the create endpoint reads nothing of the body but [text] and
    [meta]: two objects that agree on these two fields, sent from the same
    addresses, have the same outcome, whatever else they hold. *)
Theorem create_ignores_other_fields (req req' : request) (db : Pg.db)
    (fields fields' : list (string * value)) :
  req_body req = VObj fields ->
  req_body req' = VObj fields' ->
  prop "text" fields = prop "text" fields' ->
  prop "meta" fields = prop "meta" fields' ->
  req_ips req = req_ips req' ->
  req_ip req = req_ip req' ->
  post_queries req db = post_queries req' db.
Proof.
  intros Hb Hb' Ht Hm Hips Hip.
  assert (client_address req = client_address req') as Haddr.
  { unfold client_address. rewrite Hips, Hip. reflexivity. }
  rewrite (post_queries_object req db fields Hb),
          (post_queries_object req' db fields' Hb'), Ht, Hm, Haddr.
  reflexivity.
Qed.

Lemma create_ignores_other_fields_witness :
  post_queries
    (Sample.create_request
       (VObj [("admin", VBool true); ("text", VStr "hello"); ("id", VNum (JS.Fin 7))]))
    Sample.empty_db
  = post_queries (Sample.create_request (VObj [("text", VStr "hello")]))
      Sample.empty_db.
Proof.
  apply (create_ignores_other_fields
           (Sample.create_request
              (VObj [("admin", VBool true); ("text", VStr "hello");
                     ("id", VNum (JS.Fin 7))]))
           (Sample.create_request (VObj [("text", VStr "hello")]))
           Sample.empty_db
           [("admin", VBool true); ("text", VStr "hello"); ("id", VNum (JS.Fin 7))]
           [("text", VStr "hello")]);
    reflexivity.
Defined.

(** The create endpoint answers 400 exactly for the bodies that fail
    validation. *)
Lemma rejected_iff_invalid (req : request) (db : Pg.db) :
  status (reply (post_queries req db)) = 400
  <-> invalid_submission (req_body req).
Proof.
  split.
  - intros Hst. apply invalid_submission_iff.
    destruct (req_body req) as [| | | | | | |fields] eqn:Hb; try exact I.
    unfold post_queries in Hst. rewrite Hb, safeParse_object in Hst.
    destruct (text_issue (prop "text" fields)) as [w1|];
      [left; discriminate|].
    destruct (meta_issue (prop "meta" fields)) as [w2|];
      [right; discriminate|].
    exfalso. cbv zeta in Hst.
    match type of Hst with
    | context [Pg.query db ?s0] =>
        destruct (Pg.query db s0) as [[[|first rest]|e0] db0]
    end; discriminate.
  - intros Hbad.
    destruct (safeParse_rejects _ Hbad) as (issues & Hparse & _).
    unfold post_queries. rewrite Hparse. reflexivity.
Qed.

(** X4: the create endpoint answers 400 exactly for the bodies that fail
    validation.  For every other body it sends one statement and answers
    201 when the store carries it out and 500 when the store refuses it.
    It answers with no other status. *)
Theorem create_rejects_exactly_invalid (req : request) (db : Pg.db) :
  (status (reply (post_queries req db)) = 400
   <-> invalid_submission (req_body req))
  /\ (~ invalid_submission (req_body req) ->
      exists stmt,
        (effects (post_queries req db) = [ran_query stmt]
         /\ Pg.refuses db stmt = None
         /\ status (reply (post_queries req db)) = 201)
        \/ (exists e,
              effects (post_queries req db) = [ran_query stmt; console_error e]
              /\ Pg.refuses db stmt = Some e
              /\ reply (post_queries req db)
                 = {| status := 500;
                      content := json (VObj [("error", VStr "DB insert failed")]) |}))
  /\ (status (reply (post_queries req db)) = 400
      \/ status (reply (post_queries req db)) = 201
      \/ status (reply (post_queries req db)) = 500).
Proof.
  split; [apply rejected_iff_invalid|].
  pose proof (rejected_iff_invalid req db) as Hiff.
  destruct (post_queries_cases req db)
    as [(issues & _ & E) | (fields & text & _ & _ & _ & _ & E)];
    rewrite E in Hiff |- *; clear E.
  - split; [|left; reflexivity].
    intros Hvalid. exfalso. apply Hvalid, Hiff. reflexivity.
  - cbv zeta in Hiff |- *.
    destruct (Pg.refuses db _) as [e|] eqn:Hr.
    + split; [|right; right; reflexivity].
      intros _. eexists. right. exists e.
      split; [reflexivity|]. split; [exact Hr | reflexivity].
    + split; [|right; left; reflexivity].
      intros _. eexists. left.
      split; [reflexivity|]. split; [exact Hr | reflexivity].
Qed.

Lemma create_rejects_exactly_invalid_witness :
  status (reply (post_queries (Sample.create_request Sample.hello)
                   Sample.broken_db)) = 500.
Proof.
  destruct (proj1 (proj2 (create_rejects_exactly_invalid
                            (Sample.create_request Sample.hello)
                            Sample.broken_db)))
    as (stmt & [(_ & Hr & _) | (e & _ & _ & ->)]).
  - intros Hbad. apply invalid_submission_iff in Hbad.
    destruct Hbad as [H | H]; now apply H.
  - vm_compute in Hr. discriminate Hr.
  - reflexivity.
Defined.

(** X9: whatever the query string and the state of the store, the
    listing endpoint leaves the store as it was, so that a second listing
    gets the same answer as the first.  Either [Number] throws on the
    [limit] parameter, and then the handler sends no statement and no
    answer; or the handler sends exactly one statement, a [SELECT] whose
    [LIMIT] is a number between 1 and 100, and answers 200, or 500 when
    the store failed, with the failure logged. *)
Theorem listing_is_bounded_and_read_only (req : request) (db : Pg.db) :
  ((effective_limit req = None
    /\ effects (get_queries req db) = []
    /\ exists e, reply (get_queries req db)
                 = {| status := 0; content := unanswered e |})
   \/ exists q,
        effective_limit req = Some (JS.Fin q)
        /\ (1 <= q)%Q /\ (q <= 100)%Q
        /\ (effects (get_queries req db)
            = [ran_query (Pg.select_recent (JS.Fin q))]
            /\ status (reply (get_queries req db)) = 200
            \/ exists e,
                 effects (get_queries req db)
                 = [ran_query (Pg.select_recent (JS.Fin q)); console_error e]
                 /\ fst (Pg.query db (Pg.select_recent (JS.Fin q))) = inr e
                 /\ reply (get_queries req db)
                    = {| status := 500;
                         content :=
                           json (VObj [("error", VStr "DB select failed")]) |}))
  /\ pool_after (get_queries req db) = db
  /\ (forall req',
        get_queries req (pool_after (get_queries req' db)) = get_queries req db).
Proof.
  assert (Hro : forall r, pool_after (get_queries r db) = db).
  { intros r. unfold get_queries, Pg.query.
    destruct (effective_limit r) as [limit|]; [|reflexivity]. cbv zeta.
    destruct (Pg.refuses db _); [reflexivity|].
    destruct (Pg.row_count _); reflexivity. }
  split; [|split; [apply Hro | intros req'; rewrite Hro; reflexivity]].
  unfold get_queries.
  destruct (effective_limit req) as [limit|] eqn:Hl.
  - right. destruct (effective_limit_range req limit Hl) as (q & -> & Hlo & Hhi).
    exists q. split; [reflexivity|]. split; [exact Hlo|]. split; [exact Hhi|].
    cbv zeta.
    destruct (Pg.query db (Pg.select_recent (JS.Fin q))) as [[rows|e] db'].
    + left. split; reflexivity.
    + right. exists e. repeat split.
  - left. split; [reflexivity|]. split; [reflexivity|]. eexists. reflexivity.
Qed.

Lemma listing_is_bounded_and_read_only_witness :
  effective_limit
    (Sample.with_query (QObj [("toString", QStr "x")]) Sample.list_request)
  = None
  /\ effects
       (get_queries
          (Sample.with_query (QObj [("toString", QStr "x")]) Sample.list_request)
          Sample.three_rows) = [].
Proof.
  destruct (proj1 (listing_is_bounded_and_read_only
                     (Sample.with_query (QObj [("toString", QStr "x")])
                        Sample.list_request)
                     Sample.three_rows))
    as [(Hl & Hfx & _) | (q & Hl & _)].
  - split; [exact Hl | exact Hfx].
  - vm_compute in Hl. discriminate Hl.
Defined.

(** A row newer than all the others comes first in the listing order. *)
Lemma newest_comes_first (l : list Pg.row) (x : Pg.row) :
  (forall y, In y l -> Pg.row_created_at y < Pg.row_created_at x) ->
  exists rest, merge_sort Pg.newer_first (l ++ [x]) = x :: rest.
Proof.
  intros Hnew.
  pose proof (@StronglySorted_merge_sort _ Pg.newer_first _
                newer_first_transitive newer_first_total (l ++ [x])) as Hs.
  pose proof (merge_sort_Permutation Pg.newer_first (l ++ [x])) as Hp.
  destruct (merge_sort Pg.newer_first (l ++ [x])) as [|h tl].
  { apply Permutation_length in Hp. rewrite length_app in Hp.
    cbn in Hp. lia. }
  apply StronglySorted_cons in Hs. destruct Hs as [Hh _].
  assert (In h (l ++ [x])) as Hin.
  { apply (Permutation_in h Hp). left. reflexivity. }
  assert (In x (h :: tl)) as Hx.
  { apply (Permutation_in x (Permutation_sym Hp)), in_or_app.
    right. left. reflexivity. }
  apply in_app_or in Hin. destruct Hin as [Hin | [-> | []]]; [|eauto].
  destruct Hx as [-> | Hx]; [eauto|]. exfalso.
  rewrite Forall_forall in Hh. specialize (Hh x).
  unfold Pg.newer_first in Hh. specialize (Hnew h Hin).
  assert (x ∈ tl) as Hx' by (apply list_elem_of_In; exact Hx).
  specialize (Hh Hx'). lia.
Qed.



End handler_facts.

(** ** Theorems: the middleware stack *)

Section stack_facts.
Import Express Server Spec.

Lemma queries_is_mounted (path : string) :
  routed "/api/queries" path = true -> mounted "/api/" path = true.
Proof.
  intros Hp. unfold mounted.
  destruct (routed_cases _ _ Hp) as [-> | ->]; reflexivity.
Qed.

(** Every path one of the three handlers serves lies under the mount
    path of the limiter. *)
Lemma route_is_mounted (req : request) :
  route req <> None -> mounted "/api/" (req_path req) = true.
Proof.
  unfold route.
  destruct (routed "/api/queries" (req_path req)) eqn:Hq;
    [intros _; apply queries_is_mounted, Hq|].
  rewrite !andb_false_r.
  destruct (routed "/api/health" (req_path req)) eqn:Hh;
    [intros _; apply health_is_mounted, Hh|].
  rewrite andb_false_r. congruence.
Qed.

(** X11: the store is reached only through the rate limiter.  A request
    that sends a statement, writes to the log or changes the store has
    been counted by the limiter and let through; in particular a request
    answered with the rate-limit response touches nothing. *)
Theorem storage_is_behind_limiter (origins : list string) (now : Z)
    (req : request) (s : server) :
  log (app origins now req s) <> []
  \/ pool (after (app origins now req s)) <> pool s ->
  exists rep,
    rate (app origins now req s) = Some rep
    /\ RateLimit.rejected rep = false
    /\ answer (app origins now req s) <> Some rate_limited.
Proof.
  assert (Hbehind : forall g,
    log (behind_cors g now req s) <> []
    \/ pool (after (behind_cors g now req s)) <> pool s ->
    exists rep,
      rate (behind_cors g now req s) = Some rep
      /\ RateLimit.rejected rep = false
      /\ answer (behind_cors g now req s) <> Some rate_limited).
  { intros g. unfold behind_cors.
    destruct (mounted "/api/" (req_path req)) eqn:Hm.
    - destruct (RateLimit.middleware _ now req (limiter s)) as [rep lim].
      destruct (RateLimit.rejected rep) eqn:Hrej.
      + cbn. intros [H | H]; congruence.
      + pose proof (dispatch_not_limited req (pool s)) as Hd.
        destruct (dispatch req (pool s)) as [[a fx] p]. cbn in *.
        intros _. exists rep. auto.
    - unfold dispatch. destruct (route req) as [h|] eqn:Hr.
      + assert (route req <> None) as Hne by congruence.
        apply route_is_mounted in Hne. congruence.
      + cbn. intros [H | H]; congruence. }
  destruct (req_body_error req) as [e|] eqn:Hacc.
  { rewrite (app_refused _ _ _ _ e Hacc). cbn. intros [H | H]; congruence. }
  rewrite app_accepted by exact Hacc. unfold from_cors.
  rewrite middleware_grant.
  destruct (snd (Cors.origin_callback origins (req_origin req)));
    [destruct (is_options (req_method req))|]; try apply Hbehind.
  cbn. intros [H | H]; congruence.
Qed.

Lemma storage_is_behind_limiter_witness :
  exists rep,
    rate (app [] 0 (Sample.create_request Sample.hello) Sample.fresh_server)
    = Some rep
    /\ RateLimit.rejected rep = false.
Proof.
  destruct (storage_is_behind_limiter [] 0 (Sample.create_request Sample.hello)
              Sample.fresh_server) as (rep & Hr & Hrej & _).
  - left. vm_compute. discriminate.
  - exists rep. split; assumption.
Defined.

Lemma dispatch_ignores_origin (o : option string) (req : request) (db : Pg.db) :
  dispatch (with_origin o req) db = dispatch req db.
Proof.
  unfold dispatch, route. cbn [with_origin req_method req_path].
  destruct (is_post (req_method req) && routed "/api/queries" (req_path req));
    [reflexivity|].
  destruct (is_get (req_method req) && routed "/api/queries" (req_path req));
    [reflexivity|].
  destruct (is_get (req_method req) && routed "/api/health" (req_path req));
    reflexivity.
Qed.

(** X12: the CORS check decides about headers only.  For a request that
    is not a preflight, the answer, the rate-limit report, the log and the
    state left behind are the same whatever the allow-list and whatever
    the origin header: a request from a refused origin is served, and
    stored, like any other. *)
Theorem cors_does_not_gate (origins origins' : list string) (now : Z)
    (req : request) (o : option string) (s : server) :
  is_options (req_method req) = false ->
  answer (app origins' now (with_origin o req) s) = answer (app origins now req s)
  /\ rate (app origins' now (with_origin o req) s) = rate (app origins now req s)
  /\ log (app origins' now (with_origin o req) s) = log (app origins now req s)
  /\ after (app origins' now (with_origin o req) s) = after (app origins now req s).
Proof.
  intros Hm.
  destruct (req_body_error req) as [e|] eqn:Hacc.
  { rewrite (app_refused origins now req s e Hacc).
    rewrite (app_refused origins' now (with_origin o req) s e Hacc).
    repeat split. }
  rewrite (app_not_preflight origins now req s Hacc Hm).
  rewrite (app_not_preflight origins' now (with_origin o req) s Hacc Hm).
  unfold behind_cors. rewrite dispatch_ignores_origin.
  cbn [with_origin req_path].
  change (RateLimit.middleware RateLimit.server_options now (with_origin o req)
            (limiter s))
    with (RateLimit.middleware RateLimit.server_options now req (limiter s)).
  destruct (mounted "/api/" (req_path req)).
  - destruct (RateLimit.middleware _ now req (limiter s)) as [rep lim].
    destruct (RateLimit.rejected rep); [repeat split|].
    destruct (dispatch req (pool s)) as [[a fx] p]. repeat split.
  - destruct (dispatch req (pool s)) as [[a fx] p]. repeat split.
Qed.

Lemma cors_does_not_gate_witness :
  answer (app ["https://a.com"] 0
            (with_origin (Some "https://evil.example")
               (Sample.create_request Sample.hello))
            Sample.fresh_server)
  = answer (app [] 0 (Sample.create_request Sample.hello) Sample.fresh_server).
Proof.
  apply (cors_does_not_gate [] ["https://a.com"] 0
           (Sample.create_request Sample.hello) (Some "https://evil.example")
           Sample.fresh_server).
  reflexivity.
Defined.

End stack_facts.

(** ** Theorems: the ports [startServer] tries *)

Section port_facts.
Import Express Server Spec.

(** X13: whatever [startServer] ends with, it got there by trying the
    ports one after the other from the first: every port before the last
    one tried was in use, and the last one tried is where the server
    listens, or where the bind failed for another reason or the call
    threw.  No free port is ever skipped. *)
Theorem startServer_tries_in_order (fuel : nat) (os : port -> listen_event)
    (p : port) (bound : option port) (fx : list effect) :
  startServer fuel os p = Some (bound, fx) ->
  exists k,
    (k < fuel)%nat
    /\ (forall i, (i < k)%nat -> os (attempt p i) = error_event "EADDRINUSE")
    /\ match bound with
       | Some q =>
           q = attempt p k /\ os q = listening
           /\ fx = busy_trace p k ++ [listen q; console_log_listening q]
       | None =>
           (exists code,
              code <> "EADDRINUSE"%string
              /\ os (attempt p k) = error_event code
              /\ fx = busy_trace p k
                      ++ [listen (attempt p k); console_error_server code])
           \/ (exists code,
                 os (attempt p k) = throws code
                 /\ fx = busy_trace p k
                         ++ [listen (attempt p k); uncaught_exception code])
       end.
Proof.
  revert p bound fx. induction fuel as [|fuel IH]; intros p bound fx H;
    [discriminate|].
  cbn [startServer] in H. destruct (os p) as [|code|code] eqn:Hos.
  - inversion H; subst. exists 0%nat. split; [lia|].
    split; [intros i Hi; lia|]. cbn. auto.
  - destruct (String.eqb code "EADDRINUSE") eqn:Hcode.
    + apply String.eqb_eq in Hcode. subst code.
      destruct (startServer fuel os (next_port p)) as [[b fx']|] eqn:Hrec;
        [|discriminate].
      inversion H; subst. destruct (IH _ _ _ Hrec) as (k & Hk & Hbusy & Hend).
      exists (S k). split; [lia|]. split.
      * intros [|i] Hi; [exact Hos | apply Hbusy; lia].
      * cbn [attempt busy_trace]. destruct bound as [q|].
        -- destruct Hend as (-> & Hq & ->). auto.
        -- destruct Hend as [(c & Hc & Hq & ->) | (c & Hq & ->)];
             [left | right]; eauto.
    + inversion H; subst. exists 0%nat. split; [lia|].
      split; [intros i Hi; lia|]. left. exists code.
      apply String.eqb_neq in Hcode. cbn. auto.
  - inversion H; subst. exists 0%nat. split; [lia|].
    split; [intros i Hi; lia|]. right. exists code. cbn. auto.
Qed.

Lemma startServer_tries_in_order_witness :
  exists k,
    (k < 5)%nat
    /\ (forall i, (i < k)%nat ->
          Sample.two_ports_taken (attempt (defaultPort None) i)
          = error_event "EADDRINUSE")
    /\ Sample.two_ports_taken (attempt (defaultPort None) k) = listening.
Proof.
  destruct (startServer_tries_in_order 5 Sample.two_ports_taken
              (defaultPort None)
              (Some (port_number (JS.Fin (8080 + 1 + 1))))
              (busy_trace (defaultPort None) 2
               ++ [listen (port_number (JS.Fin (8080 + 1 + 1)));
                   console_log_listening (port_number (JS.Fin (8080 + 1 + 1)))])
              eq_refl) as (k & Hk & Hbusy & Hq & Hl & _).
  exists k. split; [exact Hk|]. split; [exact Hbusy|].
  rewrite <- Hq. exact Hl.
Defined.

Lemma succ_number_integer (z : Z) :
  - 2 ^ 53 <= z + 1 <= 2 ^ 53 ->
  JS.succ_number (JS.Fin (inject_Z z)) = JS.Fin (inject_Z (z + 1)).
Proof.
  intros Hz. cbn [JS.succ_number].
  assert (inject_Z z + 1 = inject_Z (z + 1))%Q as ->.
  { unfold Qplus, inject_Z. cbn [Qnum Qden Pos.mul]. f_equal. lia. }
  apply to_double_integer. exact Hz.
Qed.

Lemma attempt_number (i : nat) :
  forall (p : port) (z : Z),
    port_to_number p = JS.Fin (inject_Z z) ->
    - 2 ^ 53 <= z ->
    z + Z.of_nat (S i) <= 2 ^ 53 ->
    attempt p (S i) = port_number (JS.Fin (inject_Z (z + Z.of_nat (S i)))).
Proof.
  induction i as [|i IH]; intros p z Hp Hlo Hhi.
  - cbn [attempt]. unfold next_port. rewrite Hp.
    rewrite succ_number_integer by lia. reflexivity.
  - change (attempt p (S (S i))) with (attempt (next_port p) (S i)).
    rewrite (IH (next_port p) (z + 1)); [| |lia|lia].
    + do 2 f_equal. f_equal. lia.
    + unfold next_port. rewrite Hp. cbn [port_to_number].
      apply succ_number_integer. lia.
Qed.

(** X14: the retries are on numbers.  When [PORT] is a decimal numeral of
    value [v], the attempt after [i] failures is on the number [v + i],
    not on a longer string, as long as [v + i] is at most [2^53], up to
    where every integer is a double; without [PORT] it is on [8080 + i],
    under the same bound; when [PORT] is not numeric every retry is on
    NaN; and whatever [PORT] holds, every retry is on a number. *)
Theorem retry_ports_are_numbers (i : nat) :
  (forall ds, is_numeral ds ->
     JS.digits_value 10 ds + Z.of_nat (S i) <= 2 ^ 53 ->
     attempt (defaultPort (Some (numeral ds))) (S i)
     = port_number
         (JS.Fin (inject_Z (JS.digits_value 10 ds + Z.of_nat (S i)))))
  /\ (8080 + Z.of_nat (S i) <= 2 ^ 53 ->
      attempt (defaultPort None) (S i)
      = port_number (JS.Fin (inject_Z (8080 + Z.of_nat (S i)))))
  /\ (forall s, JS.string_to_number s = JS.NaN ->
        attempt (defaultPort (Some s)) (S i) = port_number JS.NaN)
  /\ (forall p, exists n, attempt p (S i) = port_number n).
Proof.
  assert (0 < 2 ^ 53) as H53 by (apply Z.pow_pos_nonneg; lia).
  split; [|split; [|split]].
  - intros ds Hn Hhi.
    assert (defaultPort (Some (numeral ds)) = port_string (numeral ds)) as ->.
    { destruct Hn as [Hne _]. destruct ds as [|d ds]; [congruence|]. reflexivity. }
    pose proof (digits_value_nonneg ds (proj2 Hn)) as Hv.
    apply attempt_number; [|lia|exact Hhi].
    cbn [port_to_number]. rewrite (number_of_numeral ds Hn).
    apply to_double_integer. lia.
  - intros Hhi. apply attempt_number; [reflexivity|lia|exact Hhi].
  - intros s Hs.
    assert (port_to_number (defaultPort (Some s)) = JS.NaN) as Hp.
    { destruct s; [discriminate Hs | exact Hs]. }
    assert (forall j p, port_to_number p = JS.NaN ->
              attempt p (S j) = port_number JS.NaN) as Hnan.
    { induction j as [|j IHj]; intros p' Hp'.
      - cbn [attempt]. unfold next_port. rewrite Hp'. reflexivity.
      - change (attempt p' (S (S j))) with (attempt (next_port p') (S j)).
        apply IHj. unfold next_port. rewrite Hp'. reflexivity. }
    apply Hnan, Hp.
  - intros p. rewrite attempt_succ. unfold next_port. eauto.
Qed.

Lemma retry_ports_are_numbers_witness :
  attempt (defaultPort (Some "3000")) 2 = port_number (JS.Fin 3002).
Proof.
  refine (proj1 (retry_ports_are_numbers 1) [3; 0; 0; 0] _ _).
  - split; [discriminate | repeat constructor; lia].
  - vm_compute. discriminate.
Defined.

(** Beyond [2^53] the next number is not always the next integer: the
    sum is rounded to a double. *)
Example retry_beyond_exact_integers :
  attempt (defaultPort (Some "9007199254740992")) 1
  = port_number (JS.Fin 9007199254740992).
Proof. vm_compute. reflexivity. Qed.

End port_facts.

(** ** Theorems: a [limit] parameter that is not a single string *)

Section query_shape_facts.
Import Express Server Spec.

Lemma digit_is_no_comma (radix : Z) (c : ascii) (d : Z) :
  JS.digit_of radix c = Some d -> JS.code c <> 44.
Proof.
  intros H E. unfold JS.digit_of in H. rewrite E in H. discriminate.
Qed.

(** What [take_digits] consumes holds no comma. *)
Lemma take_digits_split (radix : Z) (l : list ascii) :
  exists pre,
    l = pre ++ snd (JS.take_digits radix l)
    /\ Forall (fun c => JS.code c <> 44) pre.
Proof.
  induction l as [|c r (pre & Hr & Hpre)]; [exists []; split; [reflexivity | constructor]|].
  cbn [JS.take_digits]. destruct (JS.digit_of radix c) as [d|] eqn:Hd.
  - destruct (JS.take_digits radix r) as [ds rest]. cbn [snd] in *.
    exists (c :: pre). split; [cbn; congruence|].
    constructor; [exact (digit_is_no_comma _ _ _ Hd) | exact Hpre].
  - exists []. split; [reflexivity | constructor].
Qed.

Lemma all_digits_no_comma (radix : Z) (l : list ascii) (ds : list Z) :
  JS.take_digits radix l = (ds, []) -> Forall (fun c => JS.code c <> 44) l.
Proof.
  intros H. destruct (take_digits_split radix l) as (pre & Hl & Hpre).
  rewrite H in Hl. cbn [snd] in Hl. rewrite app_nil_r in Hl. congruence.
Qed.

Lemma parse_exponent_no_comma (l : list ascii) (e : Z) :
  JS.parse_exponent l = Some e -> Forall (fun c => JS.code c <> 44) l.
Proof.
  destruct l as [|c r]; [constructor|]. cbn [JS.parse_exponent].
  destruct ((JS.code c =? 101) || (JS.code c =? 69)) eqn:Hc; [|discriminate].
  assert (JS.code c <> 44) as Hc' by lia.
  destruct r as [|s r1].
  - cbn. discriminate.
  - destruct (JS.code s =? 45) eqn:Hs.
    + destruct (JS.take_digits 10 r1) as [[|d ds] [|x rest]] eqn:Ht;
        try discriminate.
      intros _. constructor; [exact Hc'|]. constructor; [lia|].
      exact (all_digits_no_comma _ _ _ Ht).
    + destruct (JS.code s =? 43) eqn:Hs'.
      * destruct (JS.take_digits 10 r1) as [[|d ds] [|x rest]] eqn:Ht;
          try discriminate.
        intros _. constructor; [exact Hc'|]. constructor; [lia|].
        exact (all_digits_no_comma _ _ _ Ht).
      * destruct (JS.take_digits 10 (s :: r1)) as [[|d ds] [|x rest]] eqn:Ht;
          try discriminate.
        intros _. constructor; [exact Hc'|].
        exact (all_digits_no_comma _ _ _ Ht).
Qed.

Lemma parse_unsigned_no_comma (l : list ascii) :
  JS.parse_unsigned_decimal l <> JS.NaN -> Forall (fun c => JS.code c <> 44) l.
Proof.
  unfold JS.parse_unsigned_decimal.
  destruct (decide (l = list_ascii_of_string "Infinity")) as [-> | _].
  { intros _. repeat constructor; intros H; vm_compute in H; discriminate H. }
  destruct (take_digits_split 10 l) as (pre1 & Hl & Hpre1).
  destruct (JS.take_digits 10 l) as [ip r1]. cbn [snd] in Hl.
  assert (forall (ds0 : list Z) (fp : list Z) (r2 : list ascii),
            (match ds0 with
             | [] => JS.NaN
             | z :: l0 =>
                 match JS.parse_exponent r2 with
                 | Some e =>
                     JS.to_double (JS.scale10 (JS.digits_value 10 (z :: l0))
                                     (e - Z.of_nat (length fp)))
                 | None => JS.NaN
                 end
             end) <> JS.NaN ->
            Forall (fun c => JS.code c <> 44) r2) as Hexp.
  { intros ds0 fp r2 H. destruct ds0; [congruence|].
    destruct (JS.parse_exponent r2) as [e|] eqn:He; [|congruence].
    exact (parse_exponent_no_comma _ _ He). }
  destruct r1 as [|c r].
  - intros _. rewrite app_nil_r in Hl. congruence.
  - destruct (JS.code c =? 46) eqn:Hc.
    + destruct (take_digits_split 10 r) as (pre2 & Hr & Hpre2).
      destruct (JS.take_digits 10 r) as [fp r2]. cbn [snd] in Hr.
      intros H. apply Hexp in H. rewrite Hl. apply Forall_app. split; [exact Hpre1|].
      constructor; [lia|]. rewrite Hr. apply Forall_app. split; assumption.
    + intros H. apply Hexp in H. rewrite Hl. apply Forall_app. split; assumption.
Qed.

Lemma parse_prefixed_no_comma (l : list ascii) (n : JS.number) :
  JS.parse_prefixed l = Some n -> n <> JS.NaN ->
  Forall (fun c => JS.code c <> 44) l.
Proof.
  destruct l as [|z [|p r]]; try discriminate. cbn [JS.parse_prefixed].
  destruct (JS.code z =? 48) eqn:Hz; [|discriminate].
  assert (forall b,
            match JS.take_digits b r with
            | ((_ :: _) as ds, []) =>
                Some (JS.to_double (Qmake (JS.digits_value b ds) 1))
            | _ => Some JS.NaN
            end = Some n ->
            n <> JS.NaN -> Forall (fun c => JS.code c <> 44) r) as Hdigits.
  { intros b H Hn.
    destruct (JS.take_digits b r) as [[|d ds] [|x rest]] eqn:Ht;
      try (inversion H; congruence).
    exact (all_digits_no_comma _ _ _ Ht). }
  destruct ((JS.code p =? 120) || (JS.code p =? 88)) eqn:H16.
  { intros H Hn. constructor; [lia|]. constructor; [lia|].
    exact (Hdigits 16 H Hn). }
  destruct ((JS.code p =? 111) || (JS.code p =? 79)) eqn:H8.
  { intros H Hn. constructor; [lia|]. constructor; [lia|].
    exact (Hdigits 8 H Hn). }
  destruct ((JS.code p =? 98) || (JS.code p =? 66)) eqn:H2; [|discriminate].
  intros H Hn. constructor; [lia|]. constructor; [lia|].
  exact (Hdigits 2 H Hn).
Qed.

Lemma negate_nan (x : JS.number) : JS.negate x <> JS.NaN -> x <> JS.NaN.
Proof. destruct x; cbn; congruence. Qed.

(** A string that [Number] accepts holds no comma once trimmed. *)
Lemma number_no_comma (s : string) :
  JS.string_to_number s <> JS.NaN ->
  Forall (fun c => JS.code c <> 44) (JS.trim_list (list_ascii_of_string s)).
Proof.
  unfold JS.string_to_number.
  destruct (JS.trim_list (list_ascii_of_string s)) as [|c r]; [constructor|].
  destruct (JS.parse_prefixed (c :: r)) as [n|] eqn:Hp.
  { intros Hn. exact (parse_prefixed_no_comma _ _ Hp Hn). }
  destruct (JS.code c =? 45) eqn:Hm.
  { intros H. apply negate_nan, parse_unsigned_no_comma in H.
    constructor; [lia | exact H]. }
  destruct (JS.code c =? 43) eqn:Hpl.
  { intros H. apply parse_unsigned_no_comma in H. constructor; [lia | exact H]. }
  apply parse_unsigned_no_comma.
Qed.

Lemma drop_space_keeps (c : ascii) (l : list ascii) :
  JS.is_space c = false -> In c l -> In c (JS.drop_space l).
Proof.
  intros Hc. induction l as [|x r IH]; [tauto|].
  intros Hin. cbn. destruct (JS.is_space x) eqn:Hx; [|exact Hin].
  destruct Hin as [-> | Hin]; [congruence | exact (IH Hin)].
Qed.

Lemma trim_list_keeps (c : ascii) (l : list ascii) :
  JS.is_space c = false -> In c l -> In c (JS.trim_list l).
Proof.
  intros Hc Hin. unfold JS.trim_list.
  apply in_rev. rewrite rev_involutive.
  apply drop_space_keeps; [exact Hc|]. apply -> in_rev.
  apply drop_space_keeps; assumption.
Qed.

(** A string with a comma in it is not numeric. *)
Lemma comma_is_not_numeric (s : string) :
  In ","%char (list_ascii_of_string s) -> JS.string_to_number s = JS.NaN.
Proof.
  intros Hin. destruct (JS.string_to_number s) eqn:E; try reflexivity; exfalso.
  all: assert (JS.string_to_number s <> JS.NaN) as Hn by congruence.
  all: apply number_no_comma in Hn; rewrite Forall_forall in Hn.
  all: apply (Hn ","%char); [|reflexivity].
  all: apply list_elem_of_In, trim_list_keeps; [reflexivity | exact Hin].
Qed.

Lemma joined_has_comma (x y : string) :
  In ","%char (list_ascii_of_string (x ++ String "," y)).
Proof.
  induction x as [|c x IH]; [left; reflexivity|]. right. exact IH.
Qed.

Lemma all_strings_some (l : list qval) (ss : list string) :
  all_strings (map qval_to_string l) = Some ss ->
  length ss = length l
  /\ Forall (fun v => holds_own_toString v = false) l.
Proof.
  revert ss. induction l as [|v l IH]; intros ss H.
  - cbn in H. inversion H. split; [reflexivity | constructor].
  - cbn [map all_strings] in H.
    destruct (qval_to_string v) as [sv|] eqn:Hv; [|discriminate].
    destruct (all_strings (map qval_to_string l)) as [ss'|]; [|discriminate].
    inversion H; subst ss. destruct (IH ss' eq_refl) as [Hlen Hall].
    split; [cbn; congruence|]. constructor; [|exact Hall].
    destruct (holds_own_toString v) eqn:Hh; [|reflexivity].
    apply qval_to_string_throws in Hh. congruence.
Qed.

(** X15: a [limit] parameter given more than once, or as an object, or
    as an empty list, counts as absent when [Number] does not throw on
    it: the effective limit is 20.  [Number] throws when one of the
    values, or the object itself, has an own [toString] key.  A list of
    one value counts as that value. *)
Theorem limit_of_other_shapes (req : request) :
  (forall a b rest,
     req_query_limit req = Some (QArr (a :: b :: rest)) ->
     effective_limit req
     = if holds_own_toString (QArr (a :: b :: rest)) then None
       else Some (JS.Fin 20))
  /\ (forall fields,
        req_query_limit req = Some (QObj fields) ->
        effective_limit req
        = if own_key "toString" fields then None else Some (JS.Fin 20))
  /\ (req_query_limit req = Some (QArr []) ->
      effective_limit req = Some (JS.Fin 20))
  /\ (forall v req',
        req_query_limit req = Some (QArr [v]) ->
        req_query_limit req' = Some v ->
        effective_limit req = effective_limit req').
Proof.
  split; [|split; [|split]].
  - intros a b rest Hq.
    destruct (holds_own_toString (QArr (a :: b :: rest))) eqn:Hh.
    + apply effective_limit_throws. exists (QArr (a :: b :: rest)).
      split; [exact Hq|]. apply qval_to_string_throws. exact Hh.
    + apply effective_limit_default. rewrite Hq. cbn [to_number].
      destruct (qval_to_string (QArr (a :: b :: rest))) as [str|] eqn:Hs.
      2:{ apply qval_to_string_throws in Hs. congruence. }
      f_equal. apply comma_is_not_numeric.
      cbn [qval_to_string] in Hs.
      destruct (all_strings (map qval_to_string (a :: b :: rest)))
        as [ss|] eqn:Hss; [|discriminate].
      destruct (all_strings_some _ _ Hss) as [Hlen _].
      destruct ss as [|sa [|sb ss]]; try discriminate Hlen.
      assert (str = (sa ++ String "," (String.concat "," (sb :: ss)))%string)
        as -> by (inversion Hs; reflexivity).
      apply joined_has_comma.
  - intros fields Hq. unfold effective_limit. rewrite Hq.
    cbn [to_number qval_to_string].
    destruct (own_key "toString" fields); reflexivity.
  - intros Hq. unfold effective_limit. rewrite Hq. reflexivity.
  - intros v req' Hq Hq'. unfold effective_limit. rewrite Hq, Hq'.
    cbn [to_number qval_to_string map all_strings].
    destruct (qval_to_string v) as [sv|]; reflexivity.
Qed.

Lemma limit_of_other_shapes_witness :
  effective_limit
    (Sample.with_query (QArr [QStr "5"; QStr "6"]) Sample.list_request)
  = Some (JS.Fin 20)
  /\ effective_limit
       (Sample.with_query (QObj [("toString", QStr "x")]) Sample.list_request)
     = None.
Proof.
  split.
  - apply (proj1 (limit_of_other_shapes
                    (Sample.with_query (QArr [QStr "5"; QStr "6"])
                       Sample.list_request))
             (QStr "5") (QStr "6") []).
    reflexivity.
  - apply (proj1 (proj2 (limit_of_other_shapes
                    (Sample.with_query (QObj [("toString", QStr "x")])
                       Sample.list_request)))
             [("toString", QStr "x")]).
    reflexivity.
Defined.

End query_shape_facts.
